(** * FinanceSheet: the budget model of src/app/components/FinanceSheet.tsx

    A shallow embedding of the spreadsheet component's data model, its
    derived totals and its event handlers, followed by the properties the
    specification states about them.

    JavaScript numbers are IEEE-754 binary64 values; they are modelled by
    Rocq's primitive floats, so that sums round exactly as they do in the
    browser.  Objects used as records keyed by strings are modelled by
    association lists kept in property-insertion order, since
    [Object.values] and the spread syntax enumerate properties in that
    order. *)

From Stdlib Require Import Floats ZArith Lia Bool List String Ascii.
From Stdlib Require Import DecimalString Permutation.
Import ListNotations.

Set Warnings "-inexact-float,-register-all".

Local Open Scope string_scope.
Local Open Scope list_scope.

(** ** JavaScript numbers *)

Module JS.

Definition number := float.

(** The double nearest to an integer; the integer itself up to [2^53]. *)
Definition of_Z (n : Z) : number :=
  SF2Prim (binary_normalize prec emax n 0 false).

(** [ToBoolean] on a number: [+0], [-0] and [NaN] are falsy. *)
Definition truthy (x : number) : bool :=
  negb (PrimFloat.is_zero x || PrimFloat.is_nan x).

(** [Number.isFinite]. *)
Definition isFinite (x : number) : bool := PrimFloat.is_finite x.

Definition is_neg_zero (x : number) : bool :=
  match Prim2SF x with
  | S754_zero true => true
  | _ => false
  end.

(** [Math.max] on two arguments: [NaN] is contagious, and [+0] counts as
    larger than [-0]. *)
Definition max (a b : number) : number :=
  if PrimFloat.is_nan a || PrimFloat.is_nan b then PrimFloat.nan
  else if PrimFloat.ltb a b then b
  else if PrimFloat.ltb b a then a
  else if is_neg_zero a then b
  else a.

(** [Math.round]: the nearest integer, ties towards [+Infinity]; values in
    [[-0.5, -0]] give [-0]. *)
Definition round (x : number) : number :=
  match Prim2SF x with
  | S754_finite s m e =>
      if (0 <=? e)%Z then x
      else
        let k := (- e)%Z in
        let q := (Z.pos m / 2 ^ k)%Z in
        let r := (Z.pos m mod 2 ^ k)%Z in
        let half := (2 ^ (k - 1))%Z in
        let n := if s
                 then (if (half <? r)%Z then - (q + 1) else - q)%Z
                 else (if (half <=? r)%Z then q + 1 else q)%Z in
        if (n =? 0)%Z then (if s then PrimFloat.neg_zero else PrimFloat.zero)
        else of_Z n
  | _ => x
  end.

End JS.

Abbreviation number := JS.number.

(** ** Objects as insertion-ordered property lists *)

Section Objects.
Context {V : Type}.

Definition object := list (string * V).

(** [o[k]]: [None] stands for [undefined]. *)
Fixpoint obj_get (k : string) (o : list (string * V)) : option V :=
  match o with
  | [] => None
  | (k', v) :: o' => if String.eqb k k' then Some v else obj_get k o'
  end.

(** [o[k] = v]: an existing property keeps its place, a new one goes last. *)
Fixpoint obj_set (k : string) (v : V) (o : list (string * V)) : list (string * V) :=
  match o with
  | [] => [(k, v)]
  | (k', v') :: o' =>
      if String.eqb k k' then (k', v) :: o' else (k', v') :: obj_set k v o'
  end.

(** [delete o[k]]. *)
Definition obj_delete (k : string) (o : list (string * V)) : list (string * V) :=
  filter (fun kv => negb (String.eqb k (fst kv))) o.

(** [{ ...o }]: a fresh object with the own properties of [o], in the same
    order.  Property lists are values, so the copy is the same list; what
    the source gains by copying, that later writes are not shared, holds
    of every list. *)
Definition spread (o : list (string * V)) : list (string * V) := o.

(** [Object.keys] and [Object.values]. *)
Definition obj_keys (o : list (string * V)) : list string := map fst o.
Definition obj_values (o : list (string * V)) : list V := map snd o.

End Objects.

Arguments object : clear implicits.

(** ** Data model *)

Inductive MonthKey :=
  Jan | Feb | Mar | Apr | May | Jun | Jul | Aug | Sep | Oct | Nov | Dec.

Definition MONTHS : list MonthKey :=
  [Jan; Feb; Mar; Apr; May; Jun; Jul; Aug; Sep; Oct; Nov; Dec].

(** The string each month key is at run time. *)
Definition month_name (m : MonthKey) : string :=
  match m with
  | Jan => "Jan" | Feb => "Feb" | Mar => "Mar" | Apr => "Apr"
  | May => "May" | Jun => "Jun" | Jul => "Jul" | Aug => "Aug"
  | Sep => "Sep" | Oct => "Oct" | Nov => "Nov" | Dec => "Dec"
  end.

Inductive CategoryType := income | expense | savings.

Definition CategoryType_eqb (a b : CategoryType) : bool :=
  match a, b with
  | income, income | expense, expense | savings, savings => true
  | _, _ => false
  end.

Record SheetRow := mkRow {
  id : string;
  label : string;
  type : CategoryType;
  values : object number
}.

Record PersistedState := mkPersisted {
  p_rows : list SheetRow;
  p_currency : string
}.

Definition STORAGE_KEY : string := "finance-sheet-state-v1".

(** ** The default template *)

(** The drift of the month at [index]:
    [((index % 2 === 0 ? -1 : 1) * variation) / 2]. *)
Definition drift (index : nat) (variation : number) : number :=
  ((if Nat.even index then (-1) else 1) * variation / 2)%float.

(** [createBlankValues]: [MONTHS.reduce] with the month's index. *)
Definition createBlankValues_step (base variation : number)
    (acc : object number * nat) (month : MonthKey) : object number * nat :=
  let index := snd acc in
  (obj_set (month_name month)
     (JS.max 0 (JS.round (base + drift index variation)))%float (fst acc),
   S index).

Definition createBlankValues (base variation : number) : object number :=
  fst (fold_left (createBlankValues_step base variation) MONTHS ([], 0%nat)).

Definition defaultRows : list SheetRow :=
  [ mkRow "salary" "Primary Income" income (createBlankValues 5500 0)%float;
    mkRow "side-income" "Side Income" income (createBlankValues 650 0)%float;
    mkRow "rent" "Housing & Rent" expense (createBlankValues 1850 20)%float;
    mkRow "groceries" "Groceries" expense (createBlankValues 580 60)%float;
    mkRow "transport" "Transportation" expense (createBlankValues 220 30)%float;
    mkRow "subscriptions" "Subscriptions" expense (createBlankValues 95 5)%float;
    mkRow "emergency-fund" "Emergency Fund" savings (createBlankValues 400 50)%float;
    mkRow "retirement" "Retirement" savings (createBlankValues 650 20)%float ].

(** [cloneRows]: a fresh row object per row, with a fresh [values] object. *)
Definition cloneRows (rows : list SheetRow) : list SheetRow :=
  map (fun row => mkRow (id row) (label row) (type row) (spread (values row))) rows.

Definition currencyOptions : list (string * string) :=
  [("USD", "USD"); ("EUR", "EUR"); ("GBP", "GBP"); ("CAD", "CAD")].

(** ** Derived totals *)

(** [createZeroValues]. *)
Definition createZeroValues : object number :=
  fold_left (fun acc month => obj_set (month_name month) 0%float acc) MONTHS [].

(** [sumRecord]: [Object.values(values).reduce((t, c) => t + c, 0)]. *)
Definition sumRecord (vals : object number) : number :=
  fold_left (fun total current => (total + current)%float) (obj_values vals) 0%float.

(** [row.values[month] ?? 0]. *)
Definition value_or_zero (vals : object number) (month : MonthKey) : number :=
  match obj_get (month_name month) vals with
  | Some v => v
  | None => 0%float
  end.

(** [totalFor]. *)
Definition totalFor (month : MonthKey) (rows : list SheetRow) (t : CategoryType) : number :=
  fold_left (fun acc row => (acc + value_or_zero (values row) month)%float)
    (filter (fun row => CategoryType_eqb (type row) t) rows) 0%float.

(** The four-field objects [{ income, expense, savings, net }]. *)
Record PerCategory (A : Type) := mkPerCategory {
  of_income : A;
  of_expense : A;
  of_savings : A;
  of_net : A
}.
Arguments mkPerCategory {A}.
Arguments of_income {A}.
Arguments of_expense {A}.
Arguments of_savings {A}.
Arguments of_net {A}.

Definition monthlyTotals_step (rows : list SheetRow)
    (acc : PerCategory (object number)) (month : MonthKey) : PerCategory (object number) :=
  let inc := totalFor month rows income in
  let exp := totalFor month rows expense in
  let sav := totalFor month rows savings in
  mkPerCategory
    (obj_set (month_name month) inc (of_income acc))
    (obj_set (month_name month) exp (of_expense acc))
    (obj_set (month_name month) sav (of_savings acc))
    (obj_set (month_name month) (inc - exp - sav)%float (of_net acc)).

Definition monthlyTotals (rows : list SheetRow) : PerCategory (object number) :=
  fold_left (monthlyTotals_step rows) MONTHS
    (mkPerCategory createZeroValues createZeroValues createZeroValues createZeroValues).

Definition annualTotals (rows : list SheetRow) : PerCategory number :=
  let mt := monthlyTotals rows in
  mkPerCategory (sumRecord (of_income mt)) (sumRecord (of_expense mt))
                (sumRecord (of_savings mt)) (sumRecord (of_net mt)).

Definition savingsRate (rows : list SheetRow) : number :=
  let at_ := annualTotals rows in
  if JS.truthy (of_income at_)
  then (of_savings at_ / of_income at_ * 100)%float
  else 0%float.

(** [Array.prototype.sort] with a comparator.  The engine's algorithm is not
    fixed, but the result has to be ordered by the comparator and stable;
    a stable insertion sort is the reference.  An element moves behind a
    later one only when the comparator's result is positive ([NaN] counts
    as [+0]). *)
Section Sort.
Context {A : Type} (comparefn : A -> A -> number).

Fixpoint sort_insert (x : A) (sorted : list A) : list A :=
  match sorted with
  | [] => [x]
  | y :: rest =>
      if (0 <? comparefn x y)%float then y :: sort_insert x rest
      else x :: sorted
  end.

Definition sort (l : list A) : list A := fold_right sort_insert [] l.
End Sort.

Record ExpenseTotal := mkExpenseTotal {
  e_label : string;
  total : number
}.

(** The stages of [highestExpense]: [.filter], [.map], [.sort] and [[0]],
    which is [undefined] on an empty array. *)
Definition expenseRows (rows : list SheetRow) : list SheetRow :=
  filter (fun row => CategoryType_eqb (type row) expense) rows.

Definition expenseTotals (rows : list SheetRow) : list ExpenseTotal :=
  map (fun row => mkExpenseTotal (label row) (sumRecord (values row)))
    (expenseRows rows).

(** The comparator [(a, b) => b.total - a.total]. *)
Definition by_total (a b : ExpenseTotal) : number := (total b - total a)%float.

Definition highestExpense (rows : list SheetRow) : option ExpenseTotal :=
  hd_error (sort by_total (expenseTotals rows)).

(** ** Component state and event handlers *)

Record App := mkApp {
  rows : list SheetRow;
  currency : string;
  localStorage : object string;
  console : list string
}.

Definition setRows (f : list SheetRow -> list SheetRow) (app : App) : App :=
  mkApp (f (rows app)) (currency app) (localStorage app) (console app).

Definition setCurrency (code : string) (app : App) : App :=
  mkApp (rows app) code (localStorage app) (console app).

Definition initialApp (storage : object string) : App :=
  mkApp (cloneRows defaultRows) "USD" storage [].

Section Handlers.
(** Built-ins of the platform, taken as given: [Number.parseFloat] and
    [String.prototype.trim]. *)
Variable parseFloat : string -> number.
Variable trim : string -> string.

(** The amount [handleChange] writes for the text typed in a cell. *)
Definition amount_of (value : string) : number :=
  let parsed := parseFloat value in
  if JS.isFinite parsed then JS.max parsed 0%float else 0%float.

(** The callback of [prev.map] in [handleChange]. *)
Definition edited (rowId : string) (month : MonthKey) (value : string)
    (row : SheetRow) : SheetRow :=
  if String.eqb (id row) rowId
  then mkRow (id row) (label row) (type row)
         (obj_set (month_name month) (amount_of value) (spread (values row)))
  else row.

Definition handleChange (rowId : string) (month : MonthKey) (value : string)
    (app : App) : App :=
  setRows (fun prev => map (edited rowId month value) prev) app.

(** [addRow]: [prompted] is what [window.prompt] returned ([None] for
    [null]), [fresh] is what [nanoid(8)] returned. *)
Definition addRow (t : CategoryType) (prompted : option string) (fresh : string)
    (app : App) : App :=
  match prompted with
  | None => app
  | Some "" => app
  | Some lbl =>
      setRows (fun prev => prev ++ [mkRow fresh (trim lbl) t createZeroValues]) app
  end.

Definition removeRow (rowId : string) (app : App) : App :=
  setRows (fun prev => filter (fun row => negb (String.eqb (id row) rowId)) prev) app.

(** [reset]: [confirmed] is what [window.confirm] returned. *)
Definition reset (confirmed : bool) (app : App) : App :=
  if negb confirmed then app
  else
    mkApp (cloneRows defaultRows) "USD"
          (obj_delete STORAGE_KEY (localStorage app)) (console app).

End Handlers.

(** ** Persistence effects *)

(** Values of [JSON.parse]. *)
Inductive json :=
| JNull
| JBool (b : bool)
| JNumber (n : number)
| JString (s : string)
| JArray (items : list json)
| JObject (props : list (string * json)).

(** What a property read can give besides parsed data: [undefined], or a
    method inherited from a built-in prototype. *)
Inductive value :=
| Undefined
| Builtin (name : string)
| Data (j : json).

Inductive error :=
| SyntaxError (msg : string)
| TypeError (msg : string).

(** Completion of a computation that may throw. *)
Inductive completion (A : Type) :=
| Normal (a : A)
| Throw (e : error).
Arguments Normal {A}.
Arguments Throw {A}.

Definition bind {A B : Type} (c : completion A) (k : A -> completion B) : completion B :=
  match c with
  | Normal a => k a
  | Throw e => Throw e
  end.

Notation "x <- c ;; k" := (bind c (fun x => k))
  (at level 61, c at next level, right associativity).

(** [try { body } catch (e) { handler(e) }]. *)
Definition try_catch {A : Type} (body : completion A) (handler : error -> completion A)
  : completion A :=
  match body with
  | Normal a => Normal a
  | Throw e => handler e
  end.

Fixpoint mapM {A B : Type} (f : A -> completion B) (l : list A) : completion (list B) :=
  match l with
  | [] => Normal []
  | x :: l' => y <- f x ;; ys <- mapM f l' ;; Normal (y :: ys)
  end.

Definition index_name (i : nat) : string :=
  DecimalString.NilEmpty.string_of_uint (Nat.to_uint i).

Fixpoint indexed {A : Type} (i : nat) (l : list A) : list (string * A) :=
  match l with
  | [] => []
  | x :: l' => (index_name i, x) :: indexed (S i) l'
  end.

Fixpoint chars (s : string) : list json :=
  match s with
  | EmptyString => []
  | String c s' => JString (String c EmptyString) :: chars s'
  end.

(** [v.k] for the property names the component reads ([rows], [currency],
    [values]): none of them is an index or [length], and the only inherited
    one is [Array.prototype.values]. *)
Definition get_prop (v : json) (k : string) : completion value :=
  match v with
  | JNull => Throw (TypeError "Cannot read properties of null")
  | JObject props =>
      Normal (match obj_get k props with Some j => Data j | None => Undefined end)
  | JArray _ => Normal (if String.eqb k "values" then Builtin "values" else Undefined)
  | _ => Normal Undefined
  end.

(** [ToBoolean]. *)
Definition truthy_value (v : value) : bool :=
  match v with
  | Undefined => false
  | Builtin _ => true
  | Data JNull => false
  | Data (JBool b) => b
  | Data (JNumber n) => JS.truthy n
  | Data (JString s) => negb (String.eqb s "")
  | Data (JArray _) => true
  | Data (JObject _) => true
  end.

(** The own enumerable properties that [{ ...v }] copies. *)
Definition own_props (v : value) : list (string * json) :=
  match v with
  | Data (JObject props) => spread props
  | Data (JArray items) => indexed 0 items
  | Data (JString s) => indexed 0 (chars s)
  | _ => []
  end.

(** [cloneRows] as it runs on whatever [parsed.rows] is: [rows.map] exists
    on arrays only, and the callback reads [row.values]. *)
Definition cloneRows_parsed (rows_v : value) : completion (list json) :=
  match rows_v with
  | Data (JArray items) =>
      mapM (fun row =>
              vals <- get_prop row "values" ;;
              Normal (JObject (obj_set "values" (JObject (own_props vals))
                                 (own_props (Data row)))))
           items
  | _ => Throw (TypeError "rows.map is not a function")
  end.

(** What the restore effect does to the component state. *)
Inductive RestoreResult :=
| Untouched
| Warned (msg : string)
| Restored (new_rows : list json) (new_currency : value).

(** The statements of the restore effect that follow [JSON.parse]:
    [if (parsed.rows && parsed.currency) { setRows(cloneRows(parsed.rows));
    setCurrency(parsed.currency); }]. *)
Definition restore_parsed (parsed : json) : completion RestoreResult :=
  rows_v <- get_prop parsed "rows" ;;
  if truthy_value rows_v then
    currency_v <- get_prop parsed "currency" ;;
    if truthy_value currency_v then
      cloned <- cloneRows_parsed rows_v ;;
      Normal (Restored cloned currency_v)
    else Normal Untouched
  else Normal Untouched.

Section Persistence.
(** [JSON.parse], taken as given; it throws a [SyntaxError] on text that is
    not JSON. *)
Variable JSON_parse : string -> completion json.
(** [JSON.stringify] on the persisted payload. *)
Variable JSON_stringify : PersistedState -> string.

Definition getItem (key : string) (storage : object string) : option string :=
  obj_get key storage.

(** The restore effect, run once after the first render.  Effects run in
    the browser only, where [window] is defined. *)
Definition restore_effect (storage : object string) : completion RestoreResult :=
  match getItem STORAGE_KEY storage with
  | None => Normal Untouched
  | Some "" => Normal Untouched
  | Some raw =>
      try_catch
        (parsed <- JSON_parse raw ;; restore_parsed parsed)
        (fun _ => Normal (Warned "Unable to restore saved finance sheet state"))
  end.

(** The save effect, run after every render in which [rows] or [currency]
    changed. *)
Definition save_effect (app : App) : App :=
  mkApp (rows app) (currency app)
        (obj_set STORAGE_KEY (JSON_stringify (mkPersisted (rows app) (currency app)))
           (localStorage app))
        (console app).

End Persistence.

(** Reading restored data at the types the component declares for it. *)
Definition type_of_name (s : string) : option CategoryType :=
  if String.eqb s "income" then Some income
  else if String.eqb s "expense" then Some expense
  else if String.eqb s "savings" then Some savings
  else None.

Fixpoint numbers_of (props : list (string * json)) : option (object number) :=
  match props with
  | [] => Some []
  | (k, JNumber n) :: rest =>
      match numbers_of rest with
      | Some o => Some ((k, n) :: o)
      | None => None
      end
  | _ => None
  end.

Definition row_of_json (j : json) : option SheetRow :=
  match j with
  | JObject props =>
      match obj_get "id" props, obj_get "label" props,
            obj_get "type" props, obj_get "values" props with
      | Some (JString i), Some (JString l), Some (JString t), Some (JObject vs) =>
          match type_of_name t, numbers_of vs with
          | Some ty, Some o => Some (mkRow i l ty o)
          | _, _ => None
          end
      | _, _, _, _ => None
      end
  | _ => None
  end.

Fixpoint rows_of_json (l : list json) : option (list SheetRow) :=
  match l with
  | [] => Some []
  | j :: rest =>
      match row_of_json j, rows_of_json rest with
      | Some r, Some rs => Some (r :: rs)
      | _, _ => None
      end
  end.

(** The component state after the restore effect, when the restored data
    has the declared types. *)
Definition apply_restore (r : RestoreResult) (app : App) : option App :=
  match r with
  | Untouched => Some app
  | Warned msg => Some (mkApp (rows app) (currency app) (localStorage app) (msg :: console app))
  | Restored new_rows (Data (JString c)) =>
      match rows_of_json new_rows with
      | Some rs => Some (mkApp rs c (localStorage app) (console app))
      | None => None
      end
  | Restored _ _ => None
  end.

(** The sheet that storage holds, when what it holds has the declared
    types. *)
Definition stored_sheet (JSON_parse : string -> completion json)
    (storage : object string) : option (list SheetRow) :=
  match getItem STORAGE_KEY storage with
  | Some raw =>
      match JSON_parse raw with
      | Normal (JObject props) =>
          match obj_get "rows" props with
          | Some (JArray items) => rows_of_json items
          | _ => None
          end
      | _ => None
      end
  | None => None
  end.

(** ** Well-formed sheets *)

(** The month names, in [MONTHS] order. *)
Definition month_names : list string := map month_name MONTHS.

(** A [values] object carries exactly the twelve month keys. *)
Definition has_month_keys (vals : object number) : Prop :=
  Permutation (obj_keys vals) month_names.

(** An amount is non-negative ([NaN] is not). *)
Definition nonneg (v : number) : Prop := (0 <=? v)%float = true.

Definition row_ok (row : SheetRow) : Prop :=
  has_month_keys (values row) /\ Forall nonneg (obj_values (values row)).

Definition sheet_ok (rows : list SheetRow) : Prop := Forall row_ok rows.

(** ** Reading the restore effect *)

(** The persisted state counts as absent: the component keeps the state it
    has. *)
Definition absent (r : RestoreResult) : Prop :=
  match r with
  | Restored _ _ => False
  | _ => True
  end.

(** The stored value has no field [k]. *)
Definition lacks (j : json) (k : string) : Prop :=
  match j with
  | JObject props => obj_get k props = None
  | _ => True
  end.

(** A stand-in for [JSON.parse] on text that is not JSON, the empty text
    included. *)
Definition reject_all (raw : string) : completion json :=
  Throw (SyntaxError "Unexpected end of JSON input").

(** ** Reachable states *)

Section Reachability.
Variable parseFloat : string -> number.
Variable trim : string -> string.
Variable JSON_parse : string -> completion json.
Variable JSON_stringify : PersistedState -> string.
(** What is taken for granted about a sheet found in storage. *)
Variable admissible : list SheetRow -> Prop.

(** The states the component can be in: the template at start-up, with
    whatever the browser's storage holds, and from there the restore
    effect, the handlers and the save effect, in any order.  A restore
    either leaves the state alone or installs a sheet found in storage. *)
Inductive reachable : App -> Prop :=
  | reach_initial storage :
    reachable (initialApp storage)
  | reach_restore app r app' :
    reachable app ->
    restore_effect JSON_parse (localStorage app) = Normal r ->
    apply_restore r app = Some app' ->
    absent r
    \/ (exists rs,
          stored_sheet JSON_parse (localStorage app) = Some rs /\ admissible rs) ->
    reachable app'
  | reach_handleChange app rowId month value :
    reachable app ->
    reachable (handleChange parseFloat rowId month value app)
  | reach_addRow app t prompted fresh :
    reachable app ->
    reachable (addRow trim t prompted fresh app)
  | reach_removeRow app rowId :
    reachable app ->
    reachable (removeRow rowId app)
  | reach_reset app confirmed :
    reachable app ->
    reachable (reset confirmed app)
  | reach_setCurrency app code :
    reachable app ->
    reachable (setCurrency code app)
  | reach_save app :
    reachable app ->
    reachable (save_effect JSON_stringify app).

End Reachability.

(** Anything may be in storage. *)
Definition unchecked (rs : list SheetRow) : Prop := True.

(** A stored sheet with one expense row that has a single month, holding -5:
    [{ rows: [{ id: rent, label: Rent, type: expense, values: { Jan: -5 } }],
       currency: USD }]. *)
Definition stored_negative : json :=
  JObject
    [("rows",
      JArray
        [JObject
           [("id", JString "rent"); ("label", JString "Rent");
            ("type", JString "expense");
            ("values", JObject [("Jan", JNumber (-5)%float)])]]);
     ("currency", JString "USD")].

(** The text of [stored_negative], and [JSON.parse] as far as that text is
    concerned. *)
Definition quoted (s : string) : string :=
  String.append (String (Ascii.ascii_of_nat 34) "")
    (String.append s (String (Ascii.ascii_of_nat 34) "")).

Definition stored_negative_text : string :=
  String.concat ""
    [ "{"; quoted "rows"; ":[{";
      quoted "id"; ":"; quoted "rent"; ",";
      quoted "label"; ":"; quoted "Rent"; ",";
      quoted "type"; ":"; quoted "expense"; ",";
      quoted "values"; ":{"; quoted "Jan"; ":-5}}],";
      quoted "currency"; ":"; quoted "USD"; "}" ].

Definition parse_stored_negative (raw : string) : completion json :=
  if String.eqb raw stored_negative_text then Normal stored_negative
  else Throw (SyntaxError "Unexpected token").

Definition storage_negative : object string :=
  [(STORAGE_KEY, stored_negative_text)].

Definition restored_negative : App :=
  mkApp [mkRow "rent" "Rent" expense [("Jan", (-5)%float)]] "USD" storage_negative [].

(** ** Doubles: order and integers *)

Local Open Scope Z_scope.

(** An order-preserving reading of the doubles other than [NaN] as
    integers: the value scaled by [2^1074], with the infinities beyond every
    finite value. *)
Definition ord (x : spec_float) : Z :=
  match x with
  | S754_zero _ => 0
  | S754_nan => 0
  | S754_infinity s => cond_Zopp s (2 ^ 2100)
  | S754_finite s m e => cond_Zopp s (Z.pos m * 2 ^ (e + 1074))
  end.

(** The double is an infinity or a finite number of sign [s]. *)
Definition signed (s : bool) (r : spec_float) : Prop :=
  r = S754_infinity s \/ exists m e, r = S754_finite s m e.

(** The double that is the integer [n], for [0 < n < 2^53]. *)
Definition canon (s : bool) (n : positive) : spec_float :=
  S754_finite s (Z.to_pos (Z.pos n * 2 ^ (53 - Z.pos (digits2_pos n)))) (Z.pos (digits2_pos n) - 53).

(** The double that is the integer [n], for [|n| < 2^53]. *)
Definition Zrepr (n : Z) : spec_float :=
  match n with
  | 0 => S754_zero false
  | Z.pos p => canon false p
  | Z.neg p => canon true p
  end.

(** The integer a double is, when it is one. *)
Definition integer_value (v : number) : option Z :=
  match Prim2SF v with
  | S754_zero false => Some 0
  | S754_finite s m e =>
      if e <=? 0 then
        if Z.pos m mod 2 ^ (- e) =? 0
        then Some (cond_Zopp s (Z.pos m / 2 ^ (- e)))
        else None
      else Some (cond_Zopp s (Z.pos m * 2 ^ e))
  | _ => None
  end.

(** The amount is a whole number, zero or more. *)
Definition natural (v : number) : bool :=
  match integer_value v with
  | Some n => 0 <=? n
  | None => false
  end.

Definition amountZ (v : number) : Z :=
  match integer_value v with
  | Some n => n
  | None => 0
  end.

Local Close Scope Z_scope.

(** The value [monthlyTotals] stores under [net] for a month. *)
Definition monthlyNet (m : MonthKey) (rows : list SheetRow) : number :=
  (totalFor m rows income - totalFor m rows expense - totalFor m rows savings)%float.

(** ** Whole-number sheets *)

(** Every month amount of every row is a whole number, zero or more. *)
Definition integral_sheet (rows : list SheetRow) : bool :=
  forallb (fun row => forallb (fun m => natural (value_or_zero (values row) m)) MONTHS)
    rows.

Definition Zsum (l : list Z) : Z := fold_right Z.add 0%Z l.

(** The sum of the magnitudes. *)
Definition Zabs_sum (l : list Z) : Z := Zsum (map Z.abs l).

(** The amount of a row in a month, the sum of a month over the rows of one
    type and over all rows, and the sum of the whole sheet, as integers. *)
Definition month_amount (m : MonthKey) (row : SheetRow) : Z :=
  amountZ (value_or_zero (values row) m).

Definition totalForZ (m : MonthKey) (rows : list SheetRow) (t : CategoryType) : Z :=
  Zsum (map (month_amount m) (filter (fun row => CategoryType_eqb (type row) t) rows)).

Definition columnZ (m : MonthKey) (rows : list SheetRow) : Z :=
  Zsum (map (month_amount m) rows).

Definition annualZ (rows : list SheetRow) (t : CategoryType) : Z :=
  Zsum (map (fun m => totalForZ m rows t) MONTHS).

Definition sheet_total (rows : list SheetRow) : Z :=
  Zsum (map (fun m => columnZ m rows) MONTHS).

(** A sheet with amounts that are not whole: an income of 0.1 in January and
    0.2 in February, and an expense of 0.3 in February. *)
Definition months_with (jan feb : number) : object number :=
  obj_set (month_name Feb) feb (obj_set (month_name Jan) jan createZeroValues).

Definition fractional_rows : list SheetRow :=
  [ mkRow "pay" "Pay" income (months_with 0.1 0.2)%float;
    mkRow "food" "Food" expense (months_with 0 0.3)%float ].

(** Two expense rows with the same annual total, after an income row. *)
Definition tied_rows : list SheetRow :=
  [ mkRow "pay" "Pay" income (months_with 900 900)%float;
    mkRow "rent" "Rent" expense (months_with 700 500)%float;
    mkRow "food" "Food" expense (months_with 500 700)%float ].

(** ** Exporting the sheet *)

(** [Array.prototype.join] on strings. *)
Definition join (sep : string) (l : list string) : string := String.concat sep l.

Definition newline : string := String (Ascii.ascii_of_nat 10) "".

(** [["Category", ...MONTHS, "Annual Total"].join(",")]. *)
Definition csv_header : string :=
  join "," ("Category" :: month_names ++ ["Annual Total"]).

Section CsvExport.
(** [Number.prototype.toString], taken as given. *)
Variable toString : number -> string.

(** [row.values[month].toString()]: the method call throws on [undefined]. *)
Definition csv_cell (row : SheetRow) (month : MonthKey) : completion string :=
  match obj_get (month_name month) (values row) with
  | Some v => Normal (toString v)
  | None => Throw (TypeError "Cannot read properties of undefined")
  end.

(** The fields of a data line: the label, the twelve months, the total. *)
Definition csv_fields (row : SheetRow) : completion (list string) :=
  monthly <- mapM (csv_cell row) MONTHS ;;
  Normal (label row :: monthly ++ [toString (sumRecord (values row))]).

(** The callback of [rows.map] in [downloadCsv]. *)
Definition csv_line (row : SheetRow) : completion string :=
  fields <- csv_fields row ;; Normal (join "," fields).

(** The text [downloadCsv] puts in the blob; handing the blob to the
    browser is not modelled. *)
Definition downloadCsv (rows : list SheetRow) : completion string :=
  lines <- mapM csv_line rows ;;
  Normal (String.append csv_header (String.append newline (join newline lines))).

End CsvExport.

(** Reading a line back: the fields between the occurrences of a
    separator, as [String.prototype.split] gives them. *)
Fixpoint split_on (c : ascii) (s : string) : list string :=
  match s with
  | EmptyString => [EmptyString]
  | String a s' =>
      if Ascii.eqb a c then EmptyString :: split_on c s'
      else match split_on c s' with
           | [] => [String a EmptyString]
           | f :: fs => String a f :: fs
           end
  end.

Fixpoint has_char (c : ascii) (s : string) : bool :=
  match s with
  | EmptyString => false
  | String a s' => Ascii.eqb a c || has_char c s'
  end.

Definition comma : ascii := Ascii.ascii_of_nat 44.

(** ** What a cell shows *)

(** The [value] attribute of a cell's input:
    [row.values[month] === 0 ? "" : row.values[month]]. *)
Inductive CellValue :=
| CellBlank
| CellNumber (n : number)
| CellUndefined.

Definition cell_value (row : SheetRow) (month : MonthKey) : CellValue :=
  match obj_get (month_name month) (values row) with
  | Some v => if (v =? 0)%float then CellBlank else CellNumber v
  | None => CellUndefined
  end.

(** ** The saved payload as data *)

Definition type_name (t : CategoryType) : string :=
  match t with
  | income => "income"
  | expense => "expense"
  | savings => "savings"
  end.

(** The value that [{ rows, currency }] is, as [JSON.stringify] walks it. *)
Definition json_of_row (row : SheetRow) : json :=
  JObject
    [("id", JString (id row)); ("label", JString (label row));
     ("type", JString (type_name (type row)));
     ("values", JObject (map (fun kv => (fst kv, JNumber (snd kv))) (values row)))].

Definition json_of_persisted (p : PersistedState) : json :=
  JObject
    [("rows", JArray (map json_of_row (p_rows p)));
     ("currency", JString (p_currency p))].

(** Stand-ins for [JSON.stringify] and [JSON.parse] on one payload. *)
Definition stringify_as (text : string) (p : PersistedState) : string := text.

Definition parse_as (j : json) (raw : string) : completion json := Normal j.

(** The ids of the rows, in row order. *)
Definition row_ids (rows : list SheetRow) : list string := map id rows.

(** The number of occurrences of a character. *)
Fixpoint count_char (c : ascii) (s : string) : nat :=
  match s with
  | EmptyString => 0
  | String a s' => (if Ascii.eqb a c then 1 else 0) + count_char c s'
  end.

(** A data line as [downloadCsv] writes it for a row that has the twelve
    months. *)
Definition csv_fields_of (toString : number -> string) (row : SheetRow) : list string :=
  label row
  :: map (fun m => toString (value_or_zero (values row) m)) MONTHS
  ++ [toString (sumRecord (values row))].

(** What reading a method of [undefined] throws. *)
Definition undefined_read : error := TypeError "Cannot read properties of undefined".

(** ** Sheets with unbounded amounts *)

(** Amounts are numbers, and [Infinity] is one: a stored [1e999] parses to
    it.  An income row with [Infinity] in January and [-Infinity] in
    February, beside a savings row. *)
Definition unbounded_income_rows : list SheetRow :=
  [ mkRow "pay" "Pay" income (months_with PrimFloat.infinity PrimFloat.neg_infinity);
    mkRow "fund" "Fund" savings (months_with 100 0)%float ].

(** Three expense rows, the second with such amounts. *)
Definition unbounded_expense_rows : list SheetRow :=
  [ mkRow "small" "Small" expense (months_with 1 0)%float;
    mkRow "broken" "Broken" expense (months_with PrimFloat.infinity PrimFloat.neg_infinity);
    mkRow "big" "Big" expense (months_with 5 0)%float ].

(** * Properties *)

(** ** Property lists *)

Section ObjectFacts.
Context {V : Type}.
Implicit Types (o : list (string * V)) (k : string) (v : V).

Lemma obj_get_set_eq k v o : obj_get k (obj_set k v o) = Some v.
Proof.
  induction o as [|[k' v'] o IH]; simpl.
  - now rewrite String.eqb_refl.
  - destruct (String.eqb k k') eqn:E; simpl; rewrite E; auto.
Qed.

Lemma obj_get_set_neq k k' v o :
  k <> k' -> obj_get k (obj_set k' v o) = obj_get k o.
Proof.
  intros Hne. induction o as [|[k2 v2] o IH]; simpl.
  - destruct (String.eqb k k') eqn:E; auto.
    apply String.eqb_eq in E. contradiction.
  - destruct (String.eqb k' k2) eqn:E'; simpl.
    + apply String.eqb_eq in E'. subst k2.
      destruct (String.eqb k k') eqn:E; auto.
      apply String.eqb_eq in E. contradiction.
    + now rewrite IH.
Qed.

Lemma obj_keys_set_in k v o :
  In k (obj_keys o) -> obj_keys (obj_set k v o) = obj_keys o.
Proof.
  induction o as [|[k' v'] o IH]; simpl; intros Hin.
  - contradiction.
  - destruct (String.eqb k k') eqn:E; simpl; auto.
    f_equal. apply IH. destruct Hin as [Heq|Hin]; auto.
    subst k'. now rewrite String.eqb_refl in E.
Qed.

Lemma obj_values_set_Forall (P : V -> Prop) k v o :
  P v -> Forall P (obj_values o) -> Forall P (obj_values (obj_set k v o)).
Proof.
  intros Hv. induction o as [|[k' v'] o IH]; simpl; intros Ho.
  - constructor; auto.
  - inversion Ho; subst. destruct (String.eqb k k'); simpl; constructor; auto.
Qed.

Lemma obj_get_delete k o : obj_get k (obj_delete k o) = None.
Proof.
  induction o as [|[k' v'] o IH]; simpl; auto.
  destruct (String.eqb k k') eqn:E; simpl; auto. now rewrite E.
Qed.

Lemma obj_get_delete_neq k k' o :
  k <> k' -> obj_get k (obj_delete k' o) = obj_get k o.
Proof.
  intros Hne. induction o as [|[k2 v2] o IH]; simpl; auto.
  destruct (String.eqb k' k2) eqn:E; simpl.
  - apply String.eqb_eq in E. subst k2.
    destruct (String.eqb k k') eqn:E2; auto.
    apply String.eqb_eq in E2. contradiction.
  - now rewrite IH.
Qed.

Lemma obj_get_In_values k v o : obj_get k o = Some v -> In v (obj_values o).
Proof.
  induction o as [|[k' v'] o IH]; simpl; [discriminate|].
  destruct (String.eqb k k'); intros H; [injection H as <-; now left|right; auto].
Qed.

End ObjectFacts.

Lemma Forall_filter_keep {A} (P : A -> Prop) f (l : list A) :
  Forall P l -> Forall P (filter f l).
Proof.
  induction 1 as [|x l Hx Hl IH]; simpl; auto.
  destruct (f x); auto.
Qed.

Lemma fold_left_map {A B C} (f : A -> B -> A) (g : C -> B) l : forall a,
  fold_left (fun acc x => f acc (g x)) l a = fold_left f (map g l) a.
Proof. induction l; simpl; auto. Qed.

(** ** Comparisons of doubles with zero *)

Lemma SFcompare_refl x : x <> S754_nan -> SFcompare x x = Some Eq.
Proof.
  destruct x as [s|s| |s m e]; simpl; intros H; try congruence.
  - now destruct s.
  - rewrite Z.compare_refl, Pos.compare_cont_refl. now destruct s.
Qed.

Lemma is_nan_false x : PrimFloat.is_nan x = false -> Prim2SF x <> S754_nan.
Proof.
  unfold PrimFloat.is_nan. rewrite FloatAxioms.eqb_spec. unfold SFeqb.
  intros H E. rewrite E in H. discriminate H.
Qed.

Lemma is_nan_true x : PrimFloat.is_nan x = true -> Prim2SF x = S754_nan.
Proof.
  unfold PrimFloat.is_nan. rewrite FloatAxioms.eqb_spec. unfold SFeqb. intros H.
  destruct (Prim2SF x) as [s|s| |s m e] eqn:E; auto;
    match type of H with
    | context [SFcompare ?a ?a] =>
        assert (R : SFcompare a a = Some Eq) by (apply SFcompare_refl; discriminate);
        rewrite R in H; discriminate H
    end.
Qed.

Lemma isFinite_not_nan x : JS.isFinite x = true -> PrimFloat.is_nan x = false.
Proof.
  unfold JS.isFinite, PrimFloat.is_finite. destruct (PrimFloat.is_nan x); auto.
Qed.

Lemma Prim2SF_zero : Prim2SF 0%float = S754_zero false.
Proof. reflexivity. Qed.

Lemma not_lt_zero_nonneg x :
  PrimFloat.is_nan x = false -> (x <? 0)%float = false -> nonneg x.
Proof.
  intros Hn Hlt. apply is_nan_false in Hn. unfold nonneg.
  rewrite FloatAxioms.ltb_spec in Hlt. rewrite FloatAxioms.leb_spec. rewrite Prim2SF_zero in *.
  unfold SFltb in Hlt. unfold SFleb.
  destruct (Prim2SF x) as [s|s| |s m e]; simpl in *; try congruence;
    destruct s; simpl in *; congruence.
Qed.

Lemma nonneg_not_nan x : nonneg x -> PrimFloat.is_nan x = false.
Proof.
  unfold nonneg. rewrite FloatAxioms.leb_spec, Prim2SF_zero. unfold SFleb. intros H.
  destruct (PrimFloat.is_nan x) eqn:E; auto.
  apply is_nan_true in E. rewrite E in H. discriminate H.
Qed.

Lemma nonneg_zero : nonneg 0%float.
Proof. reflexivity. Qed.

Lemma neg_zero_eqb x : JS.is_neg_zero x = true -> (0 =? x)%float = true.
Proof.
  unfold JS.is_neg_zero. rewrite FloatAxioms.eqb_spec, Prim2SF_zero.
  destruct (Prim2SF x) as [s|s| |s m e]; try discriminate. now destruct s.
Qed.

Lemma not_nan_eqb_refl x : PrimFloat.is_nan x = false -> (x =? x)%float = true.
Proof. unfold PrimFloat.is_nan. now destruct (x =? x)%float. Qed.

(** [Math.max(x, 0)] on a finite [x]. *)
Lemma max_zero_negative x :
  JS.isFinite x = true -> (x <? 0)%float = true -> JS.max x 0%float = 0%float.
Proof.
  intros Hf Hlt. unfold JS.max.
  rewrite (isFinite_not_nan x Hf). simpl. now rewrite Hlt.
Qed.

Lemma max_zero_other x :
  JS.isFinite x = true -> (x <? 0)%float = false ->
  JS.max x 0%float = if JS.is_neg_zero x then 0%float else x.
Proof.
  intros Hf Hlt. unfold JS.max.
  rewrite (isFinite_not_nan x Hf). simpl. rewrite Hlt.
  destruct (0 <? x)%float eqn:E; auto.
  destruct (JS.is_neg_zero x) eqn:Z; auto.
  exfalso. pose proof (neg_zero_eqb x Z) as Q.
  rewrite FloatAxioms.ltb_spec in E. rewrite FloatAxioms.eqb_spec in Q. unfold SFltb in E. unfold SFeqb in Q.
  destruct (SFcompare (Prim2SF 0%float) (Prim2SF x)) as [[| |]|]; discriminate.
Qed.

Lemma max_zero_nonneg x : JS.isFinite x = true -> nonneg (JS.max x 0%float).
Proof.
  intros Hf. destruct (x <? 0)%float eqn:Hlt.
  - rewrite max_zero_negative by assumption. apply nonneg_zero.
  - rewrite max_zero_other by assumption.
    destruct (JS.is_neg_zero x); [apply nonneg_zero|].
    apply not_lt_zero_nonneg; auto. now apply isFinite_not_nan.
Qed.

(** ** Doubles: digits, validity and order *)

Section Doubles.
Local Open Scope Z_scope.

Lemma digits2_size p : digits2_pos p = Pos.size p.
Proof. induction p; simpl; congruence. Qed.

Lemma digits_bounds p : 2 ^ (Z.pos (digits2_pos p) - 1) <= Z.pos p < 2 ^ Z.pos (digits2_pos p).
Proof.
  rewrite digits2_size. split.
  - pose proof (Pos.size_le p) as H.
    assert (Z.pos (2 ^ Pos.size p) <= Z.pos p~0) by (apply Pos2Z.pos_le_pos; exact H).
    rewrite Pos2Z.inj_pow in H0.
    replace (Z.pos (Pos.size p)) with (Z.succ (Z.pos (Pos.size p) - 1)) in H0 by lia.
    rewrite Z.pow_succ_r in H0 by lia. lia.
  - pose proof (Pos.size_gt p) as H.
    assert (Z.pos p < Z.pos (2 ^ Pos.size p)) by (apply Pos2Z.pos_lt_pos; exact H).
    now rewrite Pos2Z.inj_pow in H0.
Qed.

(** A valid finite double has its exponent between -1074 and 971 and a
    mantissa below [2^53], with the top bit set unless it is subnormal. *)
Lemma bounded_facts m e :
  bounded prec emax m e = true ->
  -1074 <= e <= 971 /\ Z.pos m < 2 ^ 53 /\ (-1074 < e -> 2 ^ 52 <= Z.pos m).
Proof.
  unfold bounded, canonical_mantissa, fexp, SpecFloat.emin, prec, emax.
  intros H. apply andb_true_iff in H as [H1 H2].
  apply Z.eqb_eq in H1. apply Z.leb_le in H2.
  destruct (digits_bounds m) as [B1 B2].
  set (d := Z.pos (digits2_pos m)) in *.
  assert (Hd : d <= 53) by lia.
  split; [lia|]. split.
  - assert (2 ^ d <= 2 ^ 53) by (apply Z.pow_le_mono_r; lia). lia.
  - intros He. assert (d = 53) by lia. replace (d - 1) with 52 in B1 by lia. lia.
Qed.

Lemma finite_ord_bounds m e :
  bounded prec emax m e = true ->
  0 < Z.pos m * 2 ^ (e + 1074) < 2 ^ 2100.
Proof.
  intros H. destruct (bounded_facts m e H) as (He & Hm & _).
  assert (P : 0 < 2 ^ (e + 1074)) by (apply Z.pow_pos_nonneg; lia).
  split; [nia|].
  assert (2 ^ (e + 1074) <= 2 ^ 2045) by (apply Z.pow_le_mono_r; lia).
  assert (Z.pos m * 2 ^ (e + 1074) < 2 ^ 53 * 2 ^ 2045) by nia.
  replace (2 ^ 2100) with (2 ^ 53 * 2 ^ 2045 * 2 ^ 2) by (rewrite <- !Z.pow_add_r by lia; reflexivity).
  assert (0 < 2 ^ 53 * 2 ^ 2045) by (apply Z.mul_pos_pos; apply Z.pow_pos_nonneg; lia).
  change (2 ^ 2) with 4. nia.
Qed.

Lemma finite_ord_lt m1 e1 m2 e2 :
  bounded prec emax m1 e1 = true -> bounded prec emax m2 e2 = true ->
  e1 < e2 ->
  Z.pos m1 * 2 ^ (e1 + 1074) < Z.pos m2 * 2 ^ (e2 + 1074).
Proof.
  intros H1 H2 He.
  destruct (bounded_facts m1 e1 H1) as (He1 & Hm1 & _).
  destruct (bounded_facts m2 e2 H2) as (He2 & _ & Hm2).
  assert (Hlt : -1074 < e2) by lia. specialize (Hm2 Hlt).
  replace (e2 + 1074) with ((e1 + 1074) + (e2 - e1)) by lia.
  rewrite (Z.pow_add_r 2 (e1 + 1074) (e2 - e1)) by lia.
  assert (P : 0 < 2 ^ (e1 + 1074)) by (apply Z.pow_pos_nonneg; lia).
  assert (Q : 2 ^ 1 <= 2 ^ (e2 - e1)) by (apply Z.pow_le_mono_r; lia).
  change (2 ^ 1) with 2 in Q.
  change (2 ^ 53) with (2 * 2 ^ 52) in Hm1.
  assert (Z.pos m1 < Z.pos m2 * 2 ^ (e2 - e1)) by nia.
  nia.
Qed.

Ltac cmp_lia :=
  symmetry;
  first [ apply Z.compare_gt_iff; lia | apply Z.compare_lt_iff; lia | apply Z.compare_eq_iff; lia ].

(** Comparing two doubles is comparing their readings as integers. *)
Lemma SFcompare_ord x y :
  valid_binary x = true -> valid_binary y = true ->
  x <> S754_nan -> y <> S754_nan ->
  SFcompare x y = Some (ord x ?= ord y).
Proof.
  intros Vx Vy Nx Ny.
  destruct x as [sx|sx| |sx mx ex]; try congruence;
  destruct y as [sy|sy| |sy my ey]; try congruence;
    cbn [SFcompare ord valid_binary] in *;
    try (pose proof (finite_ord_bounds _ _ Vx) as Bx);
    try (pose proof (finite_ord_bounds _ _ Vy) as By);
    assert (I : 0 < 2 ^ 2100) by (apply Z.pow_pos_nonneg; lia).
  - reflexivity.
  - destruct sy; cbn [cond_Zopp]; f_equal; cmp_lia.
  - destruct sy; cbn [cond_Zopp]; f_equal; cmp_lia.
  - destruct sx; cbn [cond_Zopp]; f_equal; cmp_lia.
  - destruct sx, sy; cbn [cond_Zopp]; f_equal; cmp_lia.
  - destruct sx, sy; cbn [cond_Zopp]; f_equal; cmp_lia.
  - destruct sx; cbn [cond_Zopp]; f_equal; cmp_lia.
  - destruct sx, sy; cbn [cond_Zopp]; f_equal; cmp_lia.
  - assert (P : 0 < 2 ^ (ex + 1074))
      by (apply Z.pow_pos_nonneg; destruct (bounded_facts _ _ Vx); lia).
    destruct sx, sy; cbn [cond_Zopp]; f_equal; try cmp_lia.
    + destruct (Z.compare_spec ex ey) as [E|L|G].
      * subst ey. rewrite Z.compare_opp.
        rewrite <- Zmult_compare_compat_r by lia.
        change (Z.pos my ?= Z.pos mx) with (Pos.compare_cont Eq my mx).
        rewrite Pos.compare_cont_antisym. reflexivity.
      * pose proof (finite_ord_lt _ _ _ _ Vx Vy L). cmp_lia.
      * pose proof (finite_ord_lt _ _ _ _ Vy Vx ltac:(lia)). cmp_lia.
    + destruct (Z.compare_spec ex ey) as [E|L|G].
      * subst ey. rewrite <- Zmult_compare_compat_r by lia. reflexivity.
      * pose proof (finite_ord_lt _ _ _ _ Vx Vy L). cmp_lia.
      * pose proof (finite_ord_lt _ _ _ _ Vy Vx ltac:(lia)). cmp_lia.
Qed.

(** ** The sign of a rounded value *)

Lemma shr_1_m r : 0 <= shr_m r -> shr_m (shr_1 r) = shr_m r / 2.
Proof.
  destruct r as [m b s]. cbn [shr_m]. intros H.
  destruct m as [|p|p]; try lia; [reflexivity|].
  destruct p; cbn [shr_1 shr_m].
  - rewrite Pos2Z.inj_xI. apply Z.div_unique with (r := 1); lia.
  - rewrite Pos2Z.inj_xO. apply Z.div_unique with (r := 0); lia.
  - reflexivity.
Qed.

Lemma iter_shr_m p : forall r,
  0 <= shr_m r -> shr_m (SpecFloat.iter_pos shr_1 p r) = shr_m r / 2 ^ Z.pos p.
Proof.
  induction p; intros r Hr; cbn [SpecFloat.iter_pos].
  - assert (H1 : 0 <= shr_m (shr_1 r)) by (rewrite shr_1_m by lia; apply Z.div_pos; lia).
    assert (P : 0 < 2 ^ Z.pos p) by (apply Z.pow_pos_nonneg; lia).
    assert (H2 : 0 <= shr_m (SpecFloat.iter_pos shr_1 p (shr_1 r)))
      by (rewrite IHp by lia; apply Z.div_pos; lia).
    rewrite IHp, IHp, shr_1_m by lia.
    rewrite !Z.div_div by lia. f_equal.
    replace (Z.pos p~1) with (1 + Z.pos p + Z.pos p) by lia.
    rewrite !Z.pow_add_r by lia. change (2 ^ 1) with 2. ring.
  - assert (P : 0 < 2 ^ Z.pos p) by (apply Z.pow_pos_nonneg; lia).
    assert (H2 : 0 <= shr_m (SpecFloat.iter_pos shr_1 p r))
      by (rewrite IHp by lia; apply Z.div_pos; lia).
    rewrite IHp, IHp by lia.
    rewrite !Z.div_div by lia. f_equal.
    replace (Z.pos p~0) with (Z.pos p + Z.pos p) by lia.
    rewrite !Z.pow_add_r by lia. ring.
  - rewrite shr_1_m by lia. reflexivity.
Qed.

Lemma shr_record_of_loc_m m l : shr_m (shr_record_of_loc m l) = m.
Proof. destruct l as [|[| |]]; reflexivity. Qed.

Lemma shr_fexp_pos m e l :
  0 < m -> SpecFloat.emin prec emax <= e ->
  0 < shr_m (fst (shr_fexp prec emax m e l))
  /\ SpecFloat.emin prec emax <= snd (shr_fexp prec emax m e l).
Proof.
  intros Hm He. unfold shr_fexp, shr.
  destruct m as [|p|p]; try lia. cbn [Zdigits2].
  destruct (digits_bounds p) as [B1 B2].
  set (d := Z.pos (digits2_pos p)) in *.
  unfold fexp. unfold SpecFloat.emin, prec, emax in *.
  destruct (Z.max (d + e - 53) (3 - 1024 - 53) - e) as [|n|n] eqn:En;
    cbn [fst snd]; rewrite ?shr_record_of_loc_m; try (split; lia).
  rewrite iter_shr_m by (rewrite shr_record_of_loc_m; lia).
  rewrite shr_record_of_loc_m.
  assert (Hn : Z.pos n = d - 53) by lia.
  split; [|lia].
  assert (P : 0 < 2 ^ Z.pos n) by (apply Z.pow_pos_nonneg; lia).
  apply Z.div_str_pos. split; [lia|].
  assert (2 ^ Z.pos n <= 2 ^ (d - 1)) by (apply Z.pow_le_mono_r; lia). lia.
Qed.

Lemma round_nearest_even_pos m l : 0 < m -> 0 < round_nearest_even m l.
Proof.
  intros H. destruct l as [|[| |]]; cbn [round_nearest_even]; try lia.
  destruct (Z.even m); lia.
Qed.

(** Rounding a non-zero value never gives zero or [NaN], and keeps the sign. *)
Lemma binary_round_aux_signed s m e l :
  0 < m -> SpecFloat.emin prec emax <= e ->
  signed s (binary_round_aux prec emax s m e l).
Proof.
  intros Hm He. unfold binary_round_aux.
  destruct (shr_fexp_pos m e l Hm He) as [H1 H1'].
  destruct (shr_fexp prec emax m e l) as [mrs' e']. cbn [fst snd] in *.
  pose proof (round_nearest_even_pos (shr_m mrs') (loc_of_shr_record mrs') H1) as H2.
  destruct (shr_fexp_pos _ e' loc_Exact H2 H1') as [H3 _].
  destruct (shr_fexp prec emax _ e' loc_Exact) as [mrs'' e'']. cbn [fst] in *.
  destruct (shr_m mrs'') as [|q|q]; try lia.
  destruct (e'' <=? emax - prec); [right; eauto|left; reflexivity].
Qed.

Lemma iter_xO_pow m d : Z.pos (Pos.iter xO m d) = Z.pos m * 2 ^ Z.pos d.
Proof.
  induction d using Pos.peano_ind.
  - simpl. lia.
  - rewrite Pos.iter_succ. rewrite Pos2Z.inj_xO, IHd, Pos2Z.inj_succ, Z.pow_succ_r by lia. ring.
Qed.

Lemma shl_align_value m e e' :
  e' <= e -> Z.pos (fst (shl_align m e e')) = Z.pos m * 2 ^ (e - e').
Proof.
  intros H. unfold shl_align.
  destruct (e' - e) as [|d|d] eqn:E; cbn [fst]; try lia.
  - replace (e - e') with 0 by lia. lia.
  - rewrite iter_xO_pow. f_equal. f_equal. lia.
Qed.

Lemma binary_round_signed s m e :
  SpecFloat.emin prec emax <= e -> signed s (binary_round prec emax s m e).
Proof.
  intros He. unfold binary_round.
  destruct (shl_align m e (fexp prec emax (Z.pos (digits2_pos m) + e))) as [mz ez] eqn:A.
  apply binary_round_aux_signed; [lia|].
  unfold shl_align in A.
  destruct (fexp prec emax (Z.pos (digits2_pos m) + e) - e) eqn:E;
    injection A as <- <-; auto.
  unfold fexp. lia.
Qed.

Lemma SFltb_zero_signed s r :
  signed s r -> SFltb (S754_zero false) r = negb s.
Proof. intros [->|(m & e & ->)]; destruct s; reflexivity. Qed.

Lemma cond_Zopp_mul s a b : cond_Zopp s a * b = cond_Zopp s (a * b).
Proof. destruct s; simpl; lia. Qed.

Lemma aligned_ord s m e ez :
  -1074 <= ez -> ez <= e ->
  cond_Zopp s (Z.pos (fst (shl_align m e ez))) * 2 ^ (ez + 1074)
  = cond_Zopp s (Z.pos m * 2 ^ (e + 1074)).
Proof.
  intros H1 H2. rewrite shl_align_value by lia. rewrite cond_Zopp_mul. f_equal.
  rewrite <- Z.mul_assoc, <- Z.pow_add_r by lia. f_equal. f_equal. lia.
Qed.

(** [y - x] is positive exactly when [x] is below [y]. *)
Lemma SFsub_sign y x :
  valid_binary y = true -> valid_binary x = true ->
  y <> S754_nan -> x <> S754_nan ->
  SFltb (S754_zero false) (SFsub prec emax y x) = (ord x <? ord y).
Proof.
  intros Vy Vx Ny Nx.
  assert (I : 0 < 2 ^ 2100) by (apply Z.pow_pos_nonneg; lia).
  destruct y as [sy|sy| |sy my ey]; try congruence;
  destruct x as [sx|sx| |sx mx ex]; try congruence;
    cbn [SFsub ord valid_binary] in *;
    try (pose proof (finite_ord_bounds _ _ Vx) as Bx);
    try (pose proof (finite_ord_bounds _ _ Vy) as By).
  all: try (destruct sy, sx; cbn [cond_Zopp negb SFltb SFcompare]; symmetry;
            first [apply Z.ltb_lt; lia | apply Z.ltb_ge; lia]).
  - destruct (bounded_facts _ _ Vx) as (Hex & _).
    destruct (bounded_facts _ _ Vy) as (Hey & _).
    set (ez := Z.min ey ex).
    pose proof (aligned_ord sy my ey ez ltac:(lia) ltac:(lia)) as Ay.
    pose proof (aligned_ord sx mx ex ez ltac:(lia) ltac:(lia)) as Ax.
    set (Dy := cond_Zopp sy (Z.pos (fst (shl_align my ey ez)))) in *.
    set (Dx := cond_Zopp sx (Z.pos (fst (shl_align mx ex ez)))) in *.
    assert (P : 0 < 2 ^ (ez + 1074)) by (apply Z.pow_pos_nonneg; lia).
    assert (E : (Dy - Dx) * 2 ^ (ez + 1074)
                = cond_Zopp sy (Z.pos my * 2 ^ (ey + 1074))
                  - cond_Zopp sx (Z.pos mx * 2 ^ (ex + 1074))) by lia.
    unfold binary_normalize.
    destruct (Dy - Dx) as [|p|p] eqn:D.
    + symmetry. apply Z.ltb_ge. lia.
    + rewrite (SFltb_zero_signed false)
        by (apply binary_round_signed; unfold SpecFloat.emin, prec, emax; lia).
      symmetry. apply Z.ltb_lt. nia.
    + rewrite (SFltb_zero_signed true)
        by (apply binary_round_signed; unfold SpecFloat.emin, prec, emax; lia).
      symmetry. apply Z.ltb_ge. nia.
Qed.

(** ** Integers *)

Lemma digits_unique p d : 2 ^ (d - 1) <= Z.pos p < 2 ^ d -> Z.pos (digits2_pos p) = d.
Proof.
  intros [H1 H2]. destruct (digits_bounds p) as [B1 B2].
  assert (0 < d). { destruct (Z_lt_le_dec 0 d); auto. rewrite (Z.pow_neg_r 2 (d-1)) in H1 by lia.
    assert (2 ^ d <= 2 ^ 0) by (apply Z.pow_le_mono_r; lia). simpl in H. lia. }
  destruct (Z.lt_trichotomy (Z.pos (digits2_pos p)) d) as [L|[E|G]]; auto.
  - assert (2 ^ Z.pos (digits2_pos p) <= 2 ^ (d - 1)) by (apply Z.pow_le_mono_r; lia). lia.
  - assert (2 ^ d <= 2 ^ (Z.pos (digits2_pos p) - 1)) by (apply Z.pow_le_mono_r; lia). lia.
Qed.

Lemma shr_1_even q : 0 <= q ->
  shr_1 (Build_shr_record (q * 2) false false) = Build_shr_record q false false.
Proof. intros Hq. rewrite Z.mul_comm. destruct q; reflexivity. Qed.

Lemma iter_shr_exact p : forall q,
  0 <= q -> SpecFloat.iter_pos shr_1 p (Build_shr_record (q * 2 ^ Z.pos p) false false) = Build_shr_record q false false.
Proof.
  induction p; intros q Hq.
  - assert (P : 0 < 2 ^ Z.pos p) by (apply Z.pow_pos_nonneg; lia).
    replace (q * 2 ^ Z.pos p~1) with (((q * 2 ^ Z.pos p) * 2 ^ Z.pos p) * 2).
    2:{ replace (Z.pos p~1) with (Z.pos p + Z.pos p + 1) by lia. rewrite !Z.pow_add_r by lia. change (2 ^ 1) with 2. ring. }
    cbn [SpecFloat.iter_pos].
    rewrite shr_1_even by nia.
    rewrite IHp by nia. apply IHp; auto. 
  - assert (P : 0 < 2 ^ Z.pos p) by (apply Z.pow_pos_nonneg; lia).
    replace (q * 2 ^ Z.pos p~0) with (((q * 2 ^ Z.pos p) * 2 ^ Z.pos p)).
    2:{ replace (Z.pos p~0) with (Z.pos p + Z.pos p) by lia. rewrite !Z.pow_add_r by lia. ring. }
    cbn [SpecFloat.iter_pos]. rewrite IHp by nia. apply IHp; auto.
  - cbn [SpecFloat.iter_pos]. change (2 ^ 1) with 2. now apply shr_1_even.
Qed.

Lemma digits_scaled n k : 0 <= k ->
  forall M, Z.pos M = Z.pos n * 2 ^ k -> Z.pos (digits2_pos M) = Z.pos (digits2_pos n) + k.
Proof.
  intros Hk M HM. apply digits_unique. rewrite HM.
  destruct (digits_bounds n) as [B1 B2].
  assert (P : 0 < 2 ^ k) by (apply Z.pow_pos_nonneg; lia).
  replace (Z.pos (digits2_pos n) + k - 1) with ((Z.pos (digits2_pos n) - 1) + k) by lia.
  rewrite !Z.pow_add_r by lia. split; nia.
Qed.

Lemma binary_round_aux_int s M e n :
  Z.pos n < 2 ^ 53 ->
  e <= Z.pos (digits2_pos n) - 53 ->
  Z.pos M = Z.pos n * 2 ^ (- e) ->
  binary_round_aux prec emax s (Z.pos M) e loc_Exact = canon s n.
Proof.
  intros Hn He HM.
  set (dn := Z.pos (digits2_pos n)) in *.
  assert (Hdn : 1 <= dn <= 53).
  { split; [unfold dn; lia|]. destruct (digits_bounds n) as [B1 _]. fold dn in B1.
    destruct (Z_le_gt_dec dn 53); auto.
    assert (2 ^ 53 <= 2 ^ (dn - 1)) by (apply Z.pow_le_mono_r; lia). lia. }
  assert (HdM : Z.pos (digits2_pos M) = dn + - e) by (apply (digits_scaled n); [lia|exact HM]).
  set (q := Z.pos n * 2 ^ (53 - dn)).
  assert (Hq : 0 < q) by (unfold q; assert (0 < 2 ^ (53 - dn)) by (apply Z.pow_pos_nonneg; lia); nia).
  assert (Hdq : Z.pos (digits2_pos (Z.to_pos q)) = 53).
  { rewrite (digits_scaled n (53 - dn)); [fold dn; lia|lia|].
    rewrite Z2Pos.id by exact Hq. reflexivity. }
  assert (Hfexp : forall d, 1 <= d <= 53 -> fexp prec emax d = d - 53).
  { intros d Hd. unfold fexp, SpecFloat.emin, prec, emax. lia. }
  assert (S1 : shr_fexp prec emax (Z.pos M) e loc_Exact = (Build_shr_record q false false, dn - 53)).
  { unfold shr_fexp. simpl Zdigits2. rewrite HdM.
    replace (dn + - e + e) with dn by lia. rewrite Hfexp by lia.
    simpl shr_record_of_loc. unfold shr.
    destruct (dn - 53 - e) as [|p|p] eqn:Ep; try lia.
    - assert (e = dn - 53) by lia. subst e. f_equal. f_equal. rewrite HM. unfold q. f_equal. f_equal. lia.
    - replace (Z.pos M) with (q * 2 ^ Z.pos p).
      2:{ rewrite HM. unfold q. rewrite <- Z.mul_assoc, <- Z.pow_add_r by lia. f_equal. f_equal. lia. }
      rewrite iter_shr_exact by lia. f_equal. lia. }
  unfold binary_round_aux. rewrite S1. simpl shr_m. simpl loc_of_shr_record.
  simpl round_nearest_even.
  assert (S2 : shr_fexp prec emax q (dn - 53) loc_Exact = (Build_shr_record q false false, dn - 53)).
  { unfold shr_fexp. replace (Zdigits2 q) with 53.
    2:{ rewrite <- Hdq. destruct q; try lia. reflexivity. }
    replace (53 + (dn - 53)) with dn by lia. rewrite Hfexp by lia.
    rewrite Z.sub_diag. reflexivity. }
  rewrite S2. simpl shr_m.
  destruct q as [|qp|qp] eqn:Eq; try lia.
  replace (dn - 53 <=? emax - prec) with true by (symmetry; apply Z.leb_le; unfold emax, prec; lia).
  unfold canon. fold dn. f_equal. fold q. rewrite Eq. reflexivity.
Qed.

(** Rounding an integer below [2^53] is exact. *)
Lemma binary_round_int s M e n :
  Z.pos n < 2 ^ 53 ->
  e <= 0 ->
  Z.pos M = Z.pos n * 2 ^ (- e) ->
  binary_round prec emax s M e = canon s n.
Proof.
  intros Hn He HM.
  set (dn := Z.pos (digits2_pos n)) in *.
  assert (Hdn : 1 <= dn <= 53).
  { split; [unfold dn; lia|]. destruct (digits_bounds n) as [B1 _]. fold dn in B1.
    destruct (Z_le_gt_dec dn 53); auto.
    assert (2 ^ 53 <= 2 ^ (dn - 1)) by (apply Z.pow_le_mono_r; lia). lia. }
  assert (HdM : Z.pos (digits2_pos M) = dn + - e) by (apply (digits_scaled n); [lia|exact HM]).
  unfold binary_round. rewrite HdM. replace (dn + - e + e) with dn by lia.
  replace (fexp prec emax dn) with (dn - 53) by (unfold fexp, SpecFloat.emin, prec, emax; lia).
  unfold shl_align.
  destruct (dn - 53 - e) as [|p|p] eqn:Ep.
  - apply binary_round_aux_int; auto. fold dn. lia.
  - apply binary_round_aux_int; auto. fold dn. lia.
  - apply binary_round_aux_int; auto. fold dn. lia.
    rewrite iter_xO_pow, HM, <- Z.mul_assoc, <- Z.pow_add_r by lia. f_equal. f_equal. lia.
Qed.

Lemma digits_le_53 p : Z.pos p < 2 ^ 53 -> 1 <= Z.pos (digits2_pos p) <= 53.
Proof.
  intros H. split; [lia|]. destruct (digits_bounds p) as [B1 _].
  destruct (Z_le_gt_dec (Z.pos (digits2_pos p)) 53); auto.
  assert (2 ^ 53 <= 2 ^ (Z.pos (digits2_pos p) - 1)) by (apply Z.pow_le_mono_r; lia). lia.
Qed.

Lemma canon_aligned s p ez :
  Z.pos p < 2 ^ 53 -> ez <= Z.pos (digits2_pos p) - 53 ->
  cond_Zopp s
    (Z.pos (fst (shl_align (Z.to_pos (Z.pos p * 2 ^ (53 - Z.pos (digits2_pos p))))
                   (Z.pos (digits2_pos p) - 53) ez)))
  = cond_Zopp s (Z.pos p) * 2 ^ (- ez).
Proof.
  intros Hp He. pose proof (digits_le_53 p Hp) as Hd.
  set (d := Z.pos (digits2_pos p)) in *.
  rewrite shl_align_value by lia.
  assert (P : 0 < 2 ^ (53 - d)) by (apply Z.pow_pos_nonneg; lia).
  rewrite Z2Pos.id by nia.
  rewrite cond_Zopp_mul. f_equal.
  rewrite <- Z.mul_assoc, <- Z.pow_add_r by lia. f_equal. f_equal. lia.
Qed.

Lemma binary_normalize_int D ez n :
  ez <= 0 -> Z.abs n < 2 ^ 53 -> D = n * 2 ^ (- ez) ->
  binary_normalize prec emax D ez false = Zrepr n.
Proof.
  intros He Hn HD.
  assert (P : 0 < 2 ^ (- ez)) by (apply Z.pow_pos_nonneg; lia).
  destruct n as [|p|p].
  - subst D. reflexivity.
  - destruct D as [|M|M]; try nia. cbn [binary_normalize Zrepr].
    apply binary_round_int; auto; lia.
  - destruct D as [|M|M]; try nia. cbn [binary_normalize Zrepr].
    apply binary_round_int; auto; lia.
Qed.

(** Sums and differences of integers are exact while they stay below
    [2^53] in magnitude. *)
Lemma SFadd_int a b :
  Z.abs a < 2 ^ 53 -> Z.abs b < 2 ^ 53 -> Z.abs (a + b) < 2 ^ 53 ->
  SFadd prec emax (Zrepr a) (Zrepr b) = Zrepr (a + b).
Proof.
  intros Ha Hb Hab.
  destruct a as [|pa|pa]; [destruct b; reflexivity| |];
    (destruct b as [|pb|pb]; [reflexivity| |]);
    cbn [Zrepr canon SFadd];
    set (ez := Z.min (Z.pos (digits2_pos pa) - 53) (Z.pos (digits2_pos pb) - 53));
    pose proof (digits_le_53 pa ltac:(lia)); pose proof (digits_le_53 pb ltac:(lia));
    (apply binary_normalize_int; [lia | lia |]);
    rewrite !canon_aligned by lia; cbn [cond_Zopp]; lia.
Qed.

Lemma SFsub_int a b :
  Z.abs a < 2 ^ 53 -> Z.abs b < 2 ^ 53 -> Z.abs (a - b) < 2 ^ 53 ->
  SFsub prec emax (Zrepr a) (Zrepr b) = Zrepr (a - b).
Proof.
  intros Ha Hb Hab.
  destruct a as [|pa|pa]; [destruct b; reflexivity| |];
    (destruct b as [|pb|pb]; [reflexivity| |]);
    cbn [Zrepr canon SFsub];
    set (ez := Z.min (Z.pos (digits2_pos pa) - 53) (Z.pos (digits2_pos pb) - 53));
    pose proof (digits_le_53 pa ltac:(lia)); pose proof (digits_le_53 pb ltac:(lia));
    (apply binary_normalize_int; [lia | lia |]);
    rewrite !canon_aligned by lia; cbn [cond_Zopp]; lia.
Qed.

(** ** Sums of non-negative doubles *)

Lemma SFleb_zero_signed r :
  signed false r -> SFleb (S754_zero false) r = true.
Proof. intros [->|(m & e & ->)]; reflexivity. Qed.

Lemma SFadd_nonneg x y :
  valid_binary x = true -> valid_binary y = true ->
  SFleb (S754_zero false) x = true -> SFleb (S754_zero false) y = true ->
  SFleb (S754_zero false) (SFadd prec emax x y) = true.
Proof.
  intros Vx Vy Hx Hy.
  destruct x as [sx|sx| |sx mx ex]; try discriminate Hx;
  destruct y as [sy|sy| |sy my ey]; try discriminate Hy;
    try (destruct sx; try discriminate Hx); try (destruct sy; try discriminate Hy);
    try reflexivity.
  cbn [SFadd valid_binary cond_Zopp] in *.
  destruct (bounded_facts _ _ Vx) as (Hex & _).
  destruct (bounded_facts _ _ Vy) as (Hey & _).
  unfold binary_normalize.
  destruct (Z.pos (fst (shl_align mx ex (Z.min ex ey)))
            + Z.pos (fst (shl_align my ey (Z.min ex ey)))) as [|p|p] eqn:D; try lia.
  apply SFleb_zero_signed. apply binary_round_signed.
  unfold SpecFloat.emin, prec, emax. lia.
Qed.

(** ** The same facts on primitive floats *)

Lemma ltb_ord a b :
  PrimFloat.is_nan a = false -> PrimFloat.is_nan b = false ->
  (a <? b)%float = (ord (Prim2SF a) <? ord (Prim2SF b)).
Proof.
  intros Ha Hb. rewrite FloatAxioms.ltb_spec. unfold SFltb.
  rewrite SFcompare_ord by auto using Prim2SF_valid, is_nan_false.
  unfold Z.ltb. reflexivity.
Qed.

Lemma sub_sign a b :
  PrimFloat.is_nan a = false -> PrimFloat.is_nan b = false ->
  (0 <? b - a)%float = (a <? b)%float.
Proof.
  intros Ha Hb. rewrite (ltb_ord a b) by assumption.
  rewrite FloatAxioms.ltb_spec, FloatAxioms.sub_spec, Prim2SF_zero.
  apply SFsub_sign; auto using Prim2SF_valid, is_nan_false.
Qed.

Lemma add_nonneg a b : nonneg a -> nonneg b -> nonneg (a + b)%float.
Proof.
  unfold nonneg. rewrite !FloatAxioms.leb_spec, FloatAxioms.add_spec, Prim2SF_zero.
  apply SFadd_nonneg; apply Prim2SF_valid.
Qed.

Lemma add_int a b n k :
  Prim2SF a = Zrepr n -> Prim2SF b = Zrepr k ->
  Z.abs n < 2 ^ 53 -> Z.abs k < 2 ^ 53 -> Z.abs (n + k) < 2 ^ 53 ->
  Prim2SF (a + b)%float = Zrepr (n + k).
Proof.
  intros Ha Hb Hn Hk Hs. rewrite FloatAxioms.add_spec, Ha, Hb.
  now apply SFadd_int.
Qed.

Lemma sub_int a b n k :
  Prim2SF a = Zrepr n -> Prim2SF b = Zrepr k ->
  Z.abs n < 2 ^ 53 -> Z.abs k < 2 ^ 53 -> Z.abs (n - k) < 2 ^ 53 ->
  Prim2SF (a - b)%float = Zrepr (n - k).
Proof.
  intros Ha Hb Hn Hk Hs. rewrite FloatAxioms.sub_spec, Ha, Hb.
  now apply SFsub_int.
Qed.

(** A double that reads as the integer [n] is the double of [n]. *)
Lemma integer_value_repr v n :
  integer_value v = Some n -> Z.abs n < 2 ^ 53 -> Prim2SF v = Zrepr n.
Proof.
  unfold integer_value. pose proof (Prim2SF_valid v) as V.
  destruct (Prim2SF v) as [s|s| |s m e]; try discriminate.
  - destruct s; [discriminate|]. intros H _. now injection H as <-.
  - cbn [valid_binary] in V. destruct (bounded_facts m e V) as (He & Hm & Hm').
    destruct (Z.leb_spec e 0) as [L|G].
    + destruct (Z.eqb_spec (Z.pos m mod 2 ^ (- e)) 0) as [R|R]; [|discriminate].
      intros H Hn. injection H as <-.
      assert (P : 0 < 2 ^ (- e)) by (apply Z.pow_pos_nonneg; lia).
      pose proof (Z.div_mod (Z.pos m) (2 ^ (- e)) ltac:(lia)) as DM.
      rewrite R, Z.add_0_r in DM.
      set (q := Z.pos m / 2 ^ (- e)) in *.
      assert (Hq : 0 < q) by nia.
      assert (Hq53 : q < 2 ^ 53) by (destruct s; cbn [cond_Zopp] in Hn; lia).
      destruct q as [|qp|qp] eqn:Eq; try lia.
      assert (Hd : Z.pos (digits2_pos m) = Z.pos (digits2_pos qp) + - e)
        by (apply (digits_scaled qp); lia).
      pose proof (digits_le_53 qp Hq53) as Hdq.
      unfold bounded, canonical_mantissa in V. apply andb_true_iff in V as [V1 _].
      apply Z.eqb_eq in V1. rewrite Hd in V1.
      unfold fexp, SpecFloat.emin, prec, emax in V1.
      assert (He' : e = Z.pos (digits2_pos qp) - 53) by lia.
      assert (Hm2 : m = Z.to_pos (Z.pos qp * 2 ^ (53 - Z.pos (digits2_pos qp)))).
      { apply Pos2Z.inj. rewrite Z2Pos.id.
        - rewrite DM. rewrite Z.mul_comm. f_equal. f_equal. lia.
        - assert (0 < 2 ^ (53 - Z.pos (digits2_pos qp))) by (apply Z.pow_pos_nonneg; lia).
          nia. }
      destruct s; cbn [cond_Zopp Z.opp Zrepr]; unfold canon; f_equal; assumption.
    + intros H Hn.
      assert (En : n = cond_Zopp s (Z.pos m * 2 ^ e)) by congruence.
      rewrite En in Hn. exfalso.
      specialize (Hm' ltac:(lia)).
      assert (2 ^ 1 <= 2 ^ e) by (apply Z.pow_le_mono_r; lia).
      change (2 ^ 1) with 2 in *.
      assert (B : 2 ^ 52 * 2 <= Z.pos m * 2 ^ e) by (apply Z.mul_le_mono_nonneg; lia).
      change (2 ^ 52 * 2) with (2 ^ 53) in B.
      destruct s; cbn [cond_Zopp] in Hn; lia.
Qed.

(** ** Multiplying by one, dividing a negated number *)

(** Rounding a value that is a valid double gives that double. *)
Lemma binary_round_aux_exact s M E m e :
  bounded prec emax m e = true ->
  E <= e ->
  Z.pos M = Z.pos m * 2 ^ (e - E) ->
  binary_round_aux prec emax s (Z.pos M) E loc_Exact = S754_finite s m e.
Proof.
  intros Hb HE HM.
  pose proof Hb as Hb'. unfold bounded in Hb'. apply andb_true_iff in Hb' as [Hc Hle].
  unfold canonical_mantissa in Hc. apply Z.eqb_eq in Hc. apply Z.leb_le in Hle.
  assert (HdM : Z.pos (digits2_pos M) = Z.pos (digits2_pos m) + (e - E))
    by (apply (digits_scaled m); [lia|exact HM]).
  assert (S1 : shr_fexp prec emax (Z.pos M) E loc_Exact
               = (Build_shr_record (Z.pos m) false false, e)).
  { unfold shr_fexp. cbn [Zdigits2]. rewrite HdM.
    replace (Z.pos (digits2_pos m) + (e - E) + E) with (Z.pos (digits2_pos m) + e) by lia.
    rewrite Hc. cbn [shr_record_of_loc]. unfold shr.
    destruct (e - E) as [|p|p] eqn:Ep; try lia.
    - assert (E = e) by lia. subst E. f_equal. f_equal. rewrite HM. cbn. lia.
    - rewrite HM. rewrite iter_shr_exact by lia. f_equal. lia. }
  unfold binary_round_aux. rewrite S1. cbn [shr_m loc_of_shr_record round_nearest_even].
  assert (S2 : shr_fexp prec emax (Z.pos m) e loc_Exact
               = (Build_shr_record (Z.pos m) false false, e)).
  { unfold shr_fexp. cbn [Zdigits2]. rewrite Hc, Z.sub_diag. reflexivity. }
  rewrite S2. cbn [shr_m].
  apply Z.leb_le in Hle. now rewrite Hle.
Qed.

Lemma SFmul_one x :
  valid_binary x = true ->
  SFmul prec emax (S754_finite false 4503599627370496 (-52)) x = x.
Proof.
  destruct x as [s|s| |s m e]; cbn [SFmul xorb valid_binary]; try reflexivity.
  intros Hb. apply binary_round_aux_exact; auto; [lia|].
  replace (e - (-52 + e)) with 52 by lia. rewrite Pos2Z.inj_mul. 
  change (2 ^ 52) with (Z.pos 4503599627370496). lia.
Qed.

Lemma SFmul_neg_one x :
  valid_binary x = true ->
  SFmul prec emax (S754_finite true 4503599627370496 (-52)) x = SFopp x.
Proof.
  destruct x as [s|s| |s m e]; cbn [SFmul SFopp xorb valid_binary]; try reflexivity.
  intros Hb. apply binary_round_aux_exact; auto; [lia|].
  replace (e - (-52 + e)) with 52 by lia. rewrite Pos2Z.inj_mul. 
  change (2 ^ 52) with (Z.pos 4503599627370496). lia.
Qed.

Lemma binary_round_aux_opp s m e l :
  SFopp (binary_round_aux prec emax s m e l) = binary_round_aux prec emax (negb s) m e l.
Proof.
  unfold binary_round_aux.
  destruct (shr_fexp prec emax m e l) as [mrs' e'].
  destruct (shr_fexp prec emax _ e' loc_Exact) as [mrs'' e''].
  destruct (shr_m mrs''); try reflexivity.
  destruct (e'' <=? emax - prec); reflexivity.
Qed.

Lemma SFdiv_opp x y :
  SFdiv prec emax (SFopp x) y = SFopp (SFdiv prec emax x y).
Proof.
  destruct x as [sx|sx| |sx mx ex]; destruct y as [sy|sy| |sy my ey];
    cbn [SFdiv SFopp]; try reflexivity;
    try (destruct sx, sy; reflexivity).
  destruct (SFdiv_core_binary prec emax (Z.pos mx) ex (Z.pos my) ey) as [[mz ez] lz].
  rewrite binary_round_aux_opp. destruct sx, sy; reflexivity.
Qed.

Lemma mul_one_l v : (1 * v)%float = v.
Proof.
  apply Prim2SF_inj. rewrite FloatAxioms.mul_spec.
  change (Prim2SF 1%float) with (S754_finite false 4503599627370496 (-52)).
  apply SFmul_one, Prim2SF_valid.
Qed.

Lemma mul_neg_one_l v : (-1 * v)%float = (- v)%float.
Proof.
  apply Prim2SF_inj. rewrite FloatAxioms.mul_spec, FloatAxioms.opp_spec.
  change (Prim2SF (-1)%float) with (S754_finite true 4503599627370496 (-52)).
  apply SFmul_neg_one, Prim2SF_valid.
Qed.

Lemma div_opp_l a b : (- a / b)%float = (- (a / b))%float.
Proof.
  apply Prim2SF_inj.
  rewrite FloatAxioms.div_spec, !FloatAxioms.opp_spec, FloatAxioms.div_spec.
  apply SFdiv_opp.
Qed.

End Doubles.

(** ** Editing a cell leaves the rest of the sheet alone *)

Section HandlerFacts.
Variable parseFloat : string -> number.

Lemma handleChange_rows rowId month value app :
  rows (handleChange parseFloat rowId month value app)
  = map (edited parseFloat rowId month value) (rows app).
Proof. reflexivity. Qed.

Lemma map_edited_absent rowId month value l :
  existsb (fun row => String.eqb (id row) rowId) l = false ->
  map (edited parseFloat rowId month value) l = l.
Proof.
  induction l as [|row l IH]; simpl; intros H; auto.
  apply orb_false_iff in H as [Hrow Hl].
  unfold edited at 1. rewrite Hrow. now rewrite IH.
Qed.

End HandlerFacts.

Section CellEdit.
Variable parseFloat : string -> number.

Lemma edited_id rowId month value row :
  id (edited parseFloat rowId month value row) = id row.
Proof. unfold edited. now destruct (String.eqb (id row) rowId). Qed.

Lemma edited_label rowId month value row :
  label (edited parseFloat rowId month value row) = label row.
Proof. unfold edited. now destruct (String.eqb (id row) rowId). Qed.

Lemma edited_type rowId month value row :
  type (edited parseFloat rowId month value row) = type row.
Proof. unfold edited. now destruct (String.eqb (id row) rowId). Qed.

Lemma edited_other_row rowId month value row :
  id row <> rowId -> edited parseFloat rowId month value row = row.
Proof.
  intros Hne. unfold edited.
  destruct (String.eqb (id row) rowId) eqn:E; auto.
  apply String.eqb_eq in E. contradiction.
Qed.

Lemma edited_other_key rowId month value row k :
  k <> month_name month ->
  obj_get k (values (edited parseFloat rowId month value row)) = obj_get k (values row).
Proof.
  intros Hne. unfold edited.
  destruct (String.eqb (id row) rowId); simpl; auto.
  now apply obj_get_set_neq.
Qed.

Lemma edited_target rowId month value row :
  id row = rowId ->
  obj_get (month_name month) (values (edited parseFloat rowId month value row))
  = Some (amount_of parseFloat value).
Proof.
  intros He. unfold edited. subst rowId. rewrite String.eqb_refl. simpl.
  apply obj_get_set_eq.
Qed.

End CellEdit.

Lemma month_name_inj m m' : month_name m = month_name m' -> m = m'.
Proof. destruct m, m'; simpl; intros H; try reflexivity; discriminate H. Qed.

(** C3.  [handleChange] changes at most one month value of the rows whose
    id is the targeted one: the currency, the number and order of rows, every
    row with another id, and in the targeted row the id, label, type and
    every property of [values] other than the targeted month are as before. *)
Theorem handleChange_frame :
  forall parseFloat rowId month value app,
    let app' := handleChange parseFloat rowId month value app in
    currency app' = currency app
    /\ List.length (rows app') = List.length (rows app)
    /\ forall i row,
         nth_error (rows app) i = Some row ->
         exists row',
           nth_error (rows app') i = Some row'
           /\ id row' = id row /\ label row' = label row /\ type row' = type row
           /\ (id row <> rowId -> row' = row)
           /\ (forall k, k <> month_name month ->
                 obj_get k (values row') = obj_get k (values row))
           /\ (forall m, m <> month ->
                 obj_get (month_name m) (values row')
                 = obj_get (month_name m) (values row)).
Proof.
  intros parseFloat rowId month value app app'. subst app'.
  rewrite handleChange_rows. split; [reflexivity|]. split; [apply length_map|].
  intros i row Hi.
  exists (edited parseFloat rowId month value row).
  split; [now apply map_nth_error|].
  split; [apply edited_id|]. split; [apply edited_label|]. split; [apply edited_type|].
  split; [apply edited_other_row|].
  split; [intros k Hk; now apply edited_other_key|].
  intros m Hm. apply edited_other_key. intros E. apply Hm. now apply month_name_inj.
Qed.

Lemma handleChange_frame_witness :
  currency (handleChange (fun _ => 40%float) "rent" Mar "40" (initialApp [])) = "USD"
  /\ exists row',
       nth_error (rows (handleChange (fun _ => 40%float) "rent" Mar "40" (initialApp []))) 3
       = Some row'
       /\ row' = mkRow "groceries" "Groceries" expense
                   (createBlankValues 580%float 60%float).
Proof.
  destruct (handleChange_frame (fun _ => 40%float) "rent" Mar "40" (initialApp []))
    as (Hc & _ & Hrows).
  split; [exact Hc|].
  destruct (Hrows 3%nat
              (mkRow "groceries" "Groceries" expense
                 (createBlankValues 580%float 60%float)) eq_refl)
    as (row' & Hn & _ & _ & _ & Hother & _).
  exists row'. split; [exact Hn|]. apply Hother. discriminate.
Defined.

(** C10.  [handleChange] with a row id that no row carries returns the state
    it was given. *)
Theorem handleChange_unknown_id :
  forall parseFloat rowId month value app,
    existsb (fun row => String.eqb (id row) rowId) (rows app) = false ->
    handleChange parseFloat rowId month value app = app.
Proof.
  intros parseFloat rowId month value app H.
  destruct app as [rs cur st con]. unfold handleChange, setRows. simpl in *.
  now rewrite map_edited_absent.
Qed.

Lemma handleChange_unknown_id_witness :
  handleChange (fun _ => 12%float) "no-such-row" Mar "12" (initialApp [])
  = initialApp [].
Proof.
  apply (handleChange_unknown_id (fun _ => 12%float) "no-such-row" Mar "12" (initialApp [])).
  reflexivity.
Defined.

Section AmountFacts.
Variable parseFloat : string -> number.

Lemma amount_of_nonneg value : nonneg (amount_of parseFloat value).
Proof.
  unfold amount_of. destruct (JS.isFinite (parseFloat value)) eqn:Hf.
  - now apply max_zero_nonneg.
  - apply nonneg_zero.
Qed.

End AmountFacts.

(** C2.  In every row carrying the targeted id, [handleChange] stores in the
    targeted month: 0 when the text parses to [NaN] or to an infinity, 0 when
    it parses to a negative number, and the parsed number otherwise (negative
    zero is stored as [+0], which is the same number).  What is stored is
    never negative. *)
Theorem handleChange_stores :
  forall parseFloat rowId month value app i row,
    nth_error (rows app) i = Some row ->
    id row = rowId ->
    let parsed := parseFloat value in
    exists row' stored,
      nth_error (rows (handleChange parseFloat rowId month value app)) i = Some row'
      /\ obj_get (month_name month) (values row') = Some stored
      /\ (JS.isFinite parsed = false -> stored = 0%float)
      /\ (JS.isFinite parsed = true -> (parsed <? 0)%float = true -> stored = 0%float)
      /\ (JS.isFinite parsed = true -> (parsed <? 0)%float = false ->
            stored = (if JS.is_neg_zero parsed then 0%float else parsed)
            /\ (stored =? parsed)%float = true)
      /\ (0 <=? stored)%float = true
      /\ (stored <? 0)%float = false.
Proof.
  intros parseFloat rowId month value app i row Hi Hid parsed.
  exists (edited parseFloat rowId month value row), (amount_of parseFloat value).
  rewrite handleChange_rows.
  split; [now apply map_nth_error|].
  split; [now apply edited_target|].
  unfold amount_of. fold parsed.
  split; [intros Hf; now rewrite Hf|].
  split; [intros Hf Hlt; rewrite Hf; now apply max_zero_negative|].
  split.
  { intros Hf Hlt. rewrite Hf. rewrite max_zero_other by assumption.
    split; [reflexivity|].
    destruct (JS.is_neg_zero parsed) eqn:Z; [now apply neg_zero_eqb|].
    apply not_nan_eqb_refl. now apply isFinite_not_nan. }
  pose proof (amount_of_nonneg parseFloat value) as Hnn.
  unfold amount_of in Hnn. fold parsed in Hnn.
  split; [exact Hnn|].
  unfold nonneg in Hnn. rewrite FloatAxioms.leb_spec in Hnn. rewrite FloatAxioms.ltb_spec.
  rewrite Prim2SF_zero in *. unfold SFleb in Hnn. unfold SFltb.
  destruct (Prim2SF _) as [s|s| |s m e]; simpl in *; try congruence;
    destruct s; simpl in *; congruence.
Qed.

(** The two inputs the specification names: text that is no number, and a
    negative number. *)
Example handleChange_not_a_number parseFloat rowId month row :
  parseFloat "abc" = PrimFloat.nan ->
  id row = rowId ->
  obj_get (month_name month) (values (edited parseFloat rowId month "abc" row))
  = Some 0%float.
Proof.
  intros Hp Hid. rewrite edited_target by assumption.
  unfold amount_of. now rewrite Hp.
Qed.

Example handleChange_negative parseFloat rowId month row :
  parseFloat "-5" = (-5)%float ->
  id row = rowId ->
  obj_get (month_name month) (values (edited parseFloat rowId month "-5" row))
  = Some 0%float.
Proof.
  intros Hp Hid. rewrite edited_target by assumption.
  unfold amount_of. now rewrite Hp.
Qed.

Lemma handleChange_stores_witness :
  exists row' stored,
    nth_error
      (rows (handleChange (fun _ => (-5)%float) "rent" Jan "-5" (initialApp []))) 2
    = Some row'
    /\ obj_get (month_name Jan) (values row') = Some stored
    /\ stored = 0%float.
Proof.
  destruct (handleChange_stores (fun _ => (-5)%float) "rent" Jan "-5" (initialApp []) 2
              (mkRow "rent" "Housing & Rent" expense
                 (createBlankValues 1850%float 20%float))
              eq_refl eq_refl)
    as (row' & stored & H1 & H2 & _ & H4 & _).
  exists row', stored. split; [exact H1|]. split; [exact H2|].
  apply H4; reflexivity.
Defined.

(** ** Adding a row *)

Lemma createZeroValues_get m : obj_get (month_name m) createZeroValues = Some 0%float.
Proof. destruct m; reflexivity. Qed.

Lemma createZeroValues_keys : obj_keys createZeroValues = month_names.
Proof. reflexivity. Qed.

(** C5.  [addRow] with no label (the prompt was cancelled) or with the empty
    label returns the state it was given; with a non-empty label it appends
    one row, of the requested type and with the twelve months at 0, after the
    existing rows, which stay as they were. *)
Theorem addRow_appends :
  forall trim t fresh app,
    addRow trim t None fresh app = app
    /\ addRow trim t (Some "") fresh app = app
    /\ forall lbl, lbl <> "" ->
         exists new,
           rows (addRow trim t (Some lbl) fresh app) = rows app ++ [new]
           /\ List.length (rows (addRow trim t (Some lbl) fresh app))
              = S (List.length (rows app))
           /\ currency (addRow trim t (Some lbl) fresh app) = currency app
           /\ type new = t
           /\ id new = fresh
           /\ label new = trim lbl
           /\ obj_keys (values new) = month_names
           /\ forall m, obj_get (month_name m) (values new) = Some 0%float.
Proof.
  intros trim t fresh app. split; [reflexivity|]. split; [reflexivity|].
  intros lbl Hl. destruct lbl as [|c lbl]; [congruence|].
  exists (mkRow fresh (trim (String c lbl)) t createZeroValues). simpl.
  split; [reflexivity|]. split; [rewrite length_app; simpl; lia|].
  repeat split; try reflexivity. intros m. apply createZeroValues_get.
Qed.

Lemma addRow_appends_witness :
  exists new,
    rows (addRow (fun s => s) savings (Some "Travel") "a1b2c3d4" (initialApp []))
    = rows (initialApp []) ++ [new]
    /\ type new = savings
    /\ obj_get (month_name Dec) (values new) = Some 0%float.
Proof.
  destruct (addRow_appends (fun s => s) savings "a1b2c3d4" (initialApp []))
    as (_ & _ & H).
  destruct (H "Travel" ltac:(discriminate))
    as (new & Hr & _ & _ & Ht & _ & _ & _ & Hv).
  exists new. split; [exact Hr|]. split; [exact Ht|]. apply Hv.
Defined.

(** ** Resetting to the template *)

Lemma createBlankValues_rule base variation i m :
  nth_error MONTHS i = Some m ->
  obj_get (month_name m) (createBlankValues base variation)
  = Some (JS.max 0 (JS.round (base + drift i variation)))%float.
Proof.
  intros H.
  do 12 (destruct i as [|i]; [injection H as <-; reflexivity|]).
  destruct i; discriminate H.
Qed.

Lemma drift_sign variation i :
  drift i variation
  = if Nat.even i then (- (variation / 2))%float else (variation / 2)%float.
Proof.
  unfold drift. destruct (Nat.even i).
  - now rewrite mul_neg_one_l, div_opp_l.
  - now rewrite mul_one_l.
Qed.

(** C7.  A confirmed [reset] installs the eight rows of the template and the
    currency USD whatever the state was, and removes the persisted item.  A
    template value is [max(0, round(base + drift))], the drift being
    [-(variation / 2)] at even month indices and [variation / 2] at odd
    ones; the Housing & Rent row has 1840 in January and 1860 in February. *)
Theorem reset_installs_template :
  forall app,
    let app' := reset true app in
    rows app' = cloneRows defaultRows
    /\ List.length (rows app') = 8%nat
    /\ map id (rows app')
       = ["salary"; "side-income"; "rent"; "groceries"; "transport";
          "subscriptions"; "emergency-fund"; "retirement"]
    /\ currency app' = "USD"
    /\ getItem STORAGE_KEY (localStorage app') = None
    /\ (forall base variation i m,
          nth_error MONTHS i = Some m ->
          obj_get (month_name m) (createBlankValues base variation)
          = Some (JS.max 0 (JS.round (base + drift i variation)))%float
          /\ drift i variation
             = if Nat.even i then (- (variation / 2))%float
               else (variation / 2)%float)
    /\ exists rent,
         nth_error (rows app') 2 = Some rent
         /\ label rent = "Housing & Rent"
         /\ values rent = createBlankValues 1850%float 20%float
         /\ obj_get (month_name Jan) (values rent) = Some 1840%float
         /\ obj_get (month_name Feb) (values rent) = Some 1860%float.
Proof.
  intros app app'. subst app'. simpl.
  split; [reflexivity|]. split; [reflexivity|]. split; [reflexivity|].
  split; [reflexivity|]. split; [apply obj_get_delete|].
  split.
  { intros base variation i m H. split.
    - now apply createBlankValues_rule.
    - apply drift_sign. }
  eexists. split; [reflexivity|]. repeat split.
Qed.

Lemma reset_installs_template_witness :
  obj_get (month_name Feb) (createBlankValues 1850%float 20%float)
  = Some (JS.max 0 (JS.round (1850 + drift 1 20)))%float
  /\ drift 1 20%float = 10%float
  /\ (JS.max 0 (JS.round (1850 + drift 1 20)))%float = 1860%float.
Proof.
  destruct (reset_installs_template (initialApp [])) as (_ & _ & _ & _ & _ & H & _).
  destruct (H 1850%float 20%float 1%nat Feb eq_refl) as [Hv Hd].
  split; [exact Hv|]. split; [|reflexivity].
  rewrite Hd. reflexivity.
Defined.

(** The save effect runs after the render that follows a reset, since
    [rows] is a new array: the item removed by [reset] is then written
    again, with the template in it. *)
Remark reset_then_save JSON_stringify app :
  getItem STORAGE_KEY (localStorage (save_effect JSON_stringify (reset true app)))
  = Some (JSON_stringify (mkPersisted (cloneRows defaultRows) "USD")).
Proof. unfold save_effect, getItem. cbn [localStorage]. apply obj_get_set_eq. Qed.

(** ** Monthly and annual totals *)

Lemma monthlyTotals_income rows :
  of_income (monthlyTotals rows)
  = map (fun m => (month_name m, totalFor m rows income)) MONTHS.
Proof. reflexivity. Qed.

Lemma monthlyTotals_expense rows :
  of_expense (monthlyTotals rows)
  = map (fun m => (month_name m, totalFor m rows expense)) MONTHS.
Proof. reflexivity. Qed.

Lemma monthlyTotals_savings rows :
  of_savings (monthlyTotals rows)
  = map (fun m => (month_name m, totalFor m rows savings)) MONTHS.
Proof. reflexivity. Qed.

Lemma monthlyTotals_net rows :
  of_net (monthlyTotals rows)
  = map (fun m => (month_name m, monthlyNet m rows)) MONTHS.
Proof. reflexivity. Qed.

Lemma obj_get_months {V} (f : MonthKey -> V) m :
  obj_get (month_name m) (map (fun m => (month_name m, f m)) MONTHS) = Some (f m).
Proof. destruct m; reflexivity. Qed.

Lemma sumRecord_months (f : MonthKey -> number) :
  sumRecord (map (fun m => (month_name m, f m)) MONTHS)
  = fold_left (fun t c => (t + c)%float) (map f MONTHS) 0%float.
Proof. reflexivity. Qed.

Lemma fold_add_nonneg vs : forall acc,
  nonneg acc -> Forall nonneg vs ->
  nonneg (fold_left (fun t c => (t + c)%float) vs acc).
Proof.
  induction vs as [|v vs IH]; intros acc Ha Hv; simpl; auto.
  inversion Hv; subst. apply IH; auto. now apply add_nonneg.
Qed.

Lemma sumRecord_nonneg vals :
  Forall nonneg (obj_values vals) -> nonneg (sumRecord vals).
Proof. intros H. unfold sumRecord. apply fold_add_nonneg; auto. apply nonneg_zero. Qed.

Lemma value_or_zero_nonneg vals m :
  Forall nonneg (obj_values vals) -> nonneg (value_or_zero vals m).
Proof.
  intros H. unfold value_or_zero.
  destruct (obj_get (month_name m) vals) as [v|] eqn:E; [|apply nonneg_zero].
  rewrite Forall_forall in H. apply H. eapply obj_get_In_values; eauto.
Qed.

Lemma totalFor_nonneg m rows t : sheet_ok rows -> nonneg (totalFor m rows t).
Proof.
  intros H. unfold totalFor.
  rewrite (fold_left_map (fun a b => (a + b)%float)
             (fun row => value_or_zero (values row) m)).
  apply fold_add_nonneg; [apply nonneg_zero|].
  rewrite Forall_map. apply Forall_filter_keep.
  unfold sheet_ok in H. rewrite Forall_forall in *. intros row Hin.
  apply value_or_zero_nonneg. now apply H.
Qed.

(** In a sheet without negative amounts the annual income is a number. *)
Lemma annual_income_nonneg rows :
  sheet_ok rows -> nonneg (of_income (annualTotals rows)).
Proof.
  intros H. unfold annualTotals. cbn [of_income].
  rewrite monthlyTotals_income, sumRecord_months.
  apply fold_add_nonneg; [apply nonneg_zero|].
  rewrite Forall_map, Forall_forall. intros m _. now apply totalFor_nonneg.
Qed.

(** ** Savings rate *)

(** C8 (as amended).  The savings rate is 0 when the annual income is zero,
    and [annualSavings / annualIncome * 100] when it is a number other than
    zero; no case raises an error.  An income that is [NaN] also gives 0,
    and the income of a sheet without negative amounts is never [NaN]. *)
Theorem savingsRate_cases :
  forall rows,
    let annual := annualTotals rows in
    ((of_income annual =? 0)%float = true -> savingsRate rows = 0%float)
    /\ ((of_income annual =? 0)%float = false ->
        PrimFloat.is_nan (of_income annual) = false ->
        savingsRate rows = (of_savings annual / of_income annual * 100)%float)
    /\ (PrimFloat.is_nan (of_income annual) = true -> savingsRate rows = 0%float)
    /\ (sheet_ok rows -> PrimFloat.is_nan (of_income annual) = false).
Proof.
  intros rows. cbv zeta. split; [|split; [|split]].
  4:{ intros H. now apply nonneg_not_nan, annual_income_nonneg. }
  all: unfold savingsRate, JS.truthy, PrimFloat.is_zero, PrimFloat.zero;
    generalize (annualTotals rows) as annual; intros annual.
  - intros H. now rewrite H.
  - intros H1 H2. now rewrite H1, H2.
  - intros H. rewrite H. now rewrite orb_true_r.
Qed.

Lemma savingsRate_cases_witness :
  (of_income (annualTotals (cloneRows defaultRows)) =? 0)%float = false
  /\ PrimFloat.is_nan (of_income (annualTotals (cloneRows defaultRows))) = false
  /\ savingsRate (cloneRows defaultRows)
     = (of_savings (annualTotals (cloneRows defaultRows))
        / of_income (annualTotals (cloneRows defaultRows)) * 100)%float
  /\ savingsRate [] = 0%float.
Proof.
  assert (H1 : (of_income (annualTotals (cloneRows defaultRows)) =? 0)%float = false)
    by (vm_compute; reflexivity).
  assert (H2 : PrimFloat.is_nan (of_income (annualTotals (cloneRows defaultRows))) = false)
    by (vm_compute; reflexivity).
  split; [exact H1|]. split; [exact H2|]. split.
  - destruct (savingsRate_cases (cloneRows defaultRows)) as (_ & H & _).
    exact (H H1 H2).
  - destruct (savingsRate_cases []) as (H & _).
    apply H. vm_compute. reflexivity.
Defined.

(** C8, the claim as stated, fails on an annual income that is [NaN]: it is
    not zero, the quotient of the claim is [NaN], and the code returns 0.
    The twelve months of the income row are numbers, [Infinity] in January
    and [-Infinity] in February. *)
Lemma savingsRate_nan_income :
  let annual := annualTotals unbounded_income_rows in
  Forall (fun row => has_month_keys (values row)) unbounded_income_rows
  /\ (of_income annual =? 0)%float = false
  /\ PrimFloat.is_nan (of_income annual) = true
  /\ PrimFloat.is_nan (of_savings annual / of_income annual * 100)%float = true
  /\ savingsRate unbounded_income_rows = 0%float
  /\ savingsRate unbounded_income_rows
     <> (of_savings annual / of_income annual * 100)%float
  /\ ~ (forall rows,
          (of_income (annualTotals rows) =? 0)%float = false ->
          savingsRate rows
          = (of_savings (annualTotals rows) / of_income (annualTotals rows) * 100)%float).
Proof.
  cbv zeta.
  assert (Hrate : savingsRate unbounded_income_rows = 0%float)
    by (vm_compute; reflexivity).
  assert (Hnan : PrimFloat.is_nan
                   (of_savings (annualTotals unbounded_income_rows)
                    / of_income (annualTotals unbounded_income_rows) * 100)%float = true)
    by (vm_compute; reflexivity).
  assert (Hne : savingsRate unbounded_income_rows
                <> (of_savings (annualTotals unbounded_income_rows)
                    / of_income (annualTotals unbounded_income_rows) * 100)%float).
  { intros H. rewrite <- H, Hrate in Hnan. vm_compute in Hnan. discriminate Hnan. }
  split; [repeat constructor|].
  split; [vm_compute; reflexivity|].
  split; [vm_compute; reflexivity|].
  split; [exact Hnan|]. split; [exact Hrate|]. split; [exact Hne|].
  intros H. apply Hne. apply H. vm_compute. reflexivity.
Qed.

(** ** Exact sums of whole numbers *)

Section ExactSums.
Local Open Scope Z_scope.

Lemma Zabs_sum_nonneg l : 0 <= Zabs_sum l.
Proof. induction l; unfold Zabs_sum in *; simpl; lia. Qed.

Lemma Zrepr_zero : Prim2SF 0%float = Zrepr 0.
Proof. reflexivity. Qed.

(** A left-to-right sum of doubles that are integers is the double of the
    integer sum, as long as the magnitudes add up to less than [2^53]. *)
Lemma fold_add_exact vs zs :
  Forall2 (fun v z => Prim2SF v = Zrepr z) vs zs ->
  forall acc a,
    Prim2SF acc = Zrepr a ->
    Z.abs a + Zabs_sum zs < 2 ^ 53 ->
    Prim2SF (fold_left (fun t c => (t + c)%float) vs acc) = Zrepr (a + Zsum zs).
Proof.
  induction 1 as [|v z vs zs Hv Hrest IH]; intros acc a Ha Hb.
  - simpl. now rewrite Z.add_0_r.
  - cbn [fold_left]. unfold Zabs_sum in Hb. cbn [map Zsum fold_right] in *.
    fold (Zsum (map Z.abs zs)) in Hb. fold (Zabs_sum zs) in Hb.
    fold (Zsum zs).
    pose proof (Zabs_sum_nonneg zs).
    rewrite Z.add_assoc. apply IH.
    + apply add_int; auto; lia.
    + lia.
Qed.

Lemma Zsum_nonneg l : Forall (fun z => 0 <= z) l -> 0 <= Zsum l.
Proof. induction 1; simpl; lia. Qed.

Lemma Zabs_sum_of_nonneg l : Forall (fun z => 0 <= z) l -> Zabs_sum l = Zsum l.
Proof. induction 1; unfold Zabs_sum in *; simpl; lia. Qed.

Lemma Zsum_In_le l z : Forall (fun z => 0 <= z) l -> In z l -> z <= Zsum l.
Proof.
  induction 1 as [|x l Hx Hl IH]; simpl; [contradiction|].
  pose proof (Zsum_nonneg l Hl). intros [->|Hin]; [lia|]. specialize (IH Hin). lia.
Qed.

End ExactSums.

Section WholeNumberSheets.
Local Open Scope Z_scope.

Lemma natural_spec v :
  natural v = true -> 0 <= amountZ v /\ integer_value v = Some (amountZ v).
Proof.
  unfold natural, amountZ. destruct (integer_value v) as [n|]; [|discriminate].
  intros H. apply Z.leb_le in H. auto.
Qed.

Lemma month_name_In m : In m MONTHS.
Proof. destruct m; simpl; tauto. Qed.

Variable rows : list SheetRow.
Hypothesis Hint : integral_sheet rows = true.
Hypothesis Hbound : sheet_total rows < 2 ^ 53.

Lemma month_amount_natural m row :
  In row rows ->
  0 <= month_amount m row
  /\ integer_value (value_or_zero (values row) m) = Some (month_amount m row).
Proof.
  intros Hin. unfold integral_sheet in Hint. rewrite forallb_forall in Hint.
  specialize (Hint row Hin). rewrite forallb_forall in Hint.
  apply natural_spec, Hint, month_name_In.
Qed.

Lemma month_amounts_nonneg m (l : list SheetRow) :
  incl l rows -> Forall (fun z => 0 <= z) (map (month_amount m) l).
Proof.
  intros Hl. rewrite Forall_map, Forall_forall. intros row Hin.
  apply month_amount_natural. now apply Hl.
Qed.

Lemma columnZ_nonneg m : 0 <= columnZ m rows.
Proof. apply Zsum_nonneg, month_amounts_nonneg, incl_refl. Qed.

Lemma columnZ_le_total m : columnZ m rows <= sheet_total rows.
Proof.
  unfold sheet_total. apply Zsum_In_le.
  - rewrite Forall_map, Forall_forall. intros m' _. apply columnZ_nonneg.
  - apply in_map_iff. exists m. split; [reflexivity|apply month_name_In].
Qed.

Lemma filter_incl_rows t :
  incl (filter (fun row => CategoryType_eqb (type row) t) rows) rows.
Proof. intros row Hin. apply filter_In in Hin. tauto. Qed.

Lemma totalForZ_nonneg m t : 0 <= totalForZ m rows t.
Proof. apply Zsum_nonneg, month_amounts_nonneg, filter_incl_rows. Qed.

Lemma totalForZ_split m (l : list SheetRow) :
  Zsum (map (month_amount m) (filter (fun row => CategoryType_eqb (type row) income) l))
  + Zsum (map (month_amount m) (filter (fun row => CategoryType_eqb (type row) expense) l))
  + Zsum (map (month_amount m) (filter (fun row => CategoryType_eqb (type row) savings) l))
  = Zsum (map (month_amount m) l).
Proof.
  induction l as [|row l IH]; [reflexivity|].
  cbn [filter map]. destruct (type row); cbn [CategoryType_eqb map Zsum fold_right];
    fold (Zsum (map (month_amount m) l)) in *;
    unfold Zsum in *; cbn [fold_right]; lia.
Qed.

Lemma totalForZ_column m :
  totalForZ m rows income + totalForZ m rows expense + totalForZ m rows savings
  = columnZ m rows.
Proof. apply totalForZ_split. Qed.

Lemma month_amount_repr m row :
  In row rows -> Prim2SF (value_or_zero (values row) m) = Zrepr (month_amount m row).
Proof.
  intros Hin. destruct (month_amount_natural m row Hin) as [H0 Hv].
  apply integer_value_repr; auto.
  assert (month_amount m row <= columnZ m rows).
  { apply Zsum_In_le; [apply month_amounts_nonneg, incl_refl|]. now apply in_map. }
  pose proof (columnZ_le_total m). lia.
Qed.

Lemma totalFor_repr m t :
  Prim2SF (totalFor m rows t) = Zrepr (totalForZ m rows t).
Proof.
  unfold totalFor, totalForZ.
  rewrite (fold_left_map (fun a b => (a + b)%float)
             (fun row => value_or_zero (values row) m)).
  set (l := filter (fun row => CategoryType_eqb (type row) t) rows).
  assert (Hl : incl l rows) by apply filter_incl_rows.
  change (Zsum (map (month_amount m) l)) with (0 + Zsum (map (month_amount m) l)).
  apply fold_add_exact.
  - clear -Hl Hint Hbound. induction l as [|row l IH]; cbn [map]; constructor.
    + apply month_amount_repr. apply Hl. now left.
    + apply IH. intros r Hr. apply Hl. now right.
  - apply Zrepr_zero.
  - rewrite Zabs_sum_of_nonneg by (now apply month_amounts_nonneg).
    pose proof (totalForZ_nonneg m t). pose proof (totalForZ_column m).
    pose proof (totalForZ_nonneg m income). pose proof (totalForZ_nonneg m expense).
    pose proof (totalForZ_nonneg m savings). pose proof (columnZ_le_total m).
    fold l. assert (Zsum (map (month_amount m) l) = totalForZ m rows t) by reflexivity.
    destruct t; simpl Z.abs; lia.
Qed.

(** The facts about one month that the annual sums need. *)
Lemma month_facts m :
  0 <= totalForZ m rows income /\ 0 <= totalForZ m rows expense
  /\ 0 <= totalForZ m rows savings
  /\ totalForZ m rows income + totalForZ m rows expense + totalForZ m rows savings
     = columnZ m rows.
Proof.
  repeat split; try apply totalForZ_nonneg. apply totalForZ_column.
Qed.

Lemma monthlyNet_repr m :
  Prim2SF (monthlyNet m rows)
  = Zrepr (totalForZ m rows income - totalForZ m rows expense - totalForZ m rows savings).
Proof.
  unfold monthlyNet. destruct (month_facts m) as (Hi & He & Hs & Hc).
  pose proof (columnZ_le_total m).
  apply sub_int; try apply totalFor_repr; try lia.
  apply sub_int; try apply totalFor_repr; lia.
Qed.

End WholeNumberSheets.

Section AnnualSums.
Local Open Scope Z_scope.

Lemma Forall2_map_repr {A} (F : A -> number) (G : A -> Z) (l : list A) :
  (forall x, In x l -> Prim2SF (F x) = Zrepr (G x)) ->
  Forall2 (fun v z => Prim2SF v = Zrepr z) (map F l) (map G l).
Proof.
  induction l as [|x l IH]; intros H; cbn [map]; constructor.
  - apply H. now left.
  - apply IH. intros y Hy. apply H. now right.
Qed.

Lemma Zabs_sum_le {A} (f g : A -> Z) (l : list A) :
  (forall x, In x l -> Z.abs (f x) <= g x) ->
  Zabs_sum (map f l) <= Zsum (map g l).
Proof.
  unfold Zabs_sum.
  induction l as [|x l IH]; intros H; cbn [map Zsum fold_right]; [lia|].
  fold (Zsum (map Z.abs (map f l))). fold (Zsum (map g l)).
  assert (Z.abs (f x) <= g x) by (apply H; now left).
  assert (Zsum (map Z.abs (map f l)) <= Zsum (map g l))
    by (apply IH; intros y Hy; apply H; now right).
  lia.
Qed.

Lemma Zsum_map_sub3 {A} (f g h : A -> Z) (l : list A) :
  Zsum (map (fun x => f x - g x - h x) l)
  = Zsum (map f l) - Zsum (map g l) - Zsum (map h l).
Proof.
  induction l as [|x l IH]; cbn [map Zsum fold_right]; [reflexivity|].
  fold (Zsum (map (fun x => f x - g x - h x) l)).
  fold (Zsum (map f l)). fold (Zsum (map g l)). fold (Zsum (map h l)). lia.
Qed.

Lemma Zsum_map_add3 {A} (f g h k : A -> Z) (l : list A) :
  (forall x, In x l -> f x + g x + h x = k x) ->
  Zsum (map f l) + Zsum (map g l) + Zsum (map h l) = Zsum (map k l).
Proof.
  induction l as [|x l IH]; intros H; cbn [map Zsum fold_right]; [reflexivity|].
  fold (Zsum (map f l)). fold (Zsum (map g l)). fold (Zsum (map h l)).
  fold (Zsum (map k l)).
  assert (f x + g x + h x = k x) by (apply H; now left).
  assert (Zsum (map f l) + Zsum (map g l) + Zsum (map h l) = Zsum (map k l))
    by (apply IH; intros y Hy; apply H; now right).
  lia.
Qed.

Lemma Zsum_map_nonneg {A} (f : A -> Z) (l : list A) :
  (forall x, 0 <= f x) -> 0 <= Zsum (map f l).
Proof. intros H. apply Zsum_nonneg. rewrite Forall_map, Forall_forall. auto. Qed.

Variable rows : list SheetRow.
Hypothesis Hint : integral_sheet rows = true.
Hypothesis Hbound : sheet_total rows < 2 ^ 53.

Lemma annualZ_nonneg t : 0 <= annualZ rows t.
Proof. apply Zsum_map_nonneg. intros m. now apply totalForZ_nonneg. Qed.

Lemma annualZ_total :
  annualZ rows income + annualZ rows expense + annualZ rows savings = sheet_total rows.
Proof.
  unfold annualZ, sheet_total. apply Zsum_map_add3.
  intros m _. now apply totalForZ_column.
Qed.

Lemma annual_repr t (record : object number) :
  record = map (fun m => (month_name m, totalFor m rows t)) MONTHS ->
  Prim2SF (sumRecord record) = Zrepr (annualZ rows t).
Proof.
  intros ->. rewrite sumRecord_months.
  change (annualZ rows t) with (0 + annualZ rows t). unfold annualZ.
  apply fold_add_exact.
  - apply Forall2_map_repr. intros m _. now apply totalFor_repr.
  - apply Zrepr_zero.
  - assert (Zabs_sum (map (fun m => totalForZ m rows t) MONTHS)
            <= Zsum (map (fun m => columnZ m rows) MONTHS)).
    { apply Zabs_sum_le. intros m _.
      destruct (month_facts rows Hint m) as (Hi & He & Hs & Hc).
      destruct t; lia. }
    fold (sheet_total rows) in H. simpl Z.abs. lia.
Qed.

Lemma annual_net_repr :
  Prim2SF (of_net (annualTotals rows))
  = Zrepr (annualZ rows income - annualZ rows expense - annualZ rows savings).
Proof.
  unfold annualTotals. cbn [of_net]. rewrite monthlyTotals_net, sumRecord_months.
  unfold annualZ. rewrite <- Zsum_map_sub3.
  match goal with |- _ = Zrepr ?z => change z with (0 + z) end.
  apply fold_add_exact.
  - apply Forall2_map_repr. intros m _. now apply monthlyNet_repr.
  - apply Zrepr_zero.
  - assert (Zabs_sum (map (fun m => totalForZ m rows income - totalForZ m rows expense
                                     - totalForZ m rows savings) MONTHS)
            <= Zsum (map (fun m => columnZ m rows) MONTHS)).
    { apply Zabs_sum_le. intros m _.
      destruct (month_facts rows Hint m) as (Hi & He & Hs & Hc). lia. }
    fold (sheet_total rows) in H. simpl Z.abs. lia.
Qed.

Lemma annual_difference_repr :
  Prim2SF (of_income (annualTotals rows) - of_expense (annualTotals rows)
           - of_savings (annualTotals rows))%float
  = Zrepr (annualZ rows income - annualZ rows expense - annualZ rows savings).
Proof.
  pose proof (annualZ_nonneg income). pose proof (annualZ_nonneg expense).
  pose proof (annualZ_nonneg savings). pose proof annualZ_total.
  unfold annualTotals. cbn [of_income of_expense of_savings].
  apply sub_int; try lia.
  - apply sub_int; try lia.
    + apply annual_repr, monthlyTotals_income.
    + apply annual_repr, monthlyTotals_expense.
  - apply annual_repr, monthlyTotals_savings.
Qed.

End AnnualSums.

(** C1 (as amended).  For every sheet and month the stored monthly net is
    [income - expense - savings] of that month's totals, and the annual net
    is the left-to-right sum of the twelve monthly nets.  When every month
    amount is a whole number and the amounts of the sheet add up to less than
    [2^53], no addition or subtraction rounds and the annual net equals
    [annual income - annual expense - annual savings]. *)
Theorem annual_net_identity :
  forall rows,
    (forall m,
       obj_get (month_name m) (of_income (monthlyTotals rows))
       = Some (totalFor m rows income)
       /\ obj_get (month_name m) (of_expense (monthlyTotals rows))
          = Some (totalFor m rows expense)
       /\ obj_get (month_name m) (of_savings (monthlyTotals rows))
          = Some (totalFor m rows savings)
       /\ obj_get (month_name m) (of_net (monthlyTotals rows))
          = Some (totalFor m rows income - totalFor m rows expense
                  - totalFor m rows savings)%float)
    /\ of_net (annualTotals rows)
       = fold_left (fun t c => (t + c)%float)
           (map (fun m => (totalFor m rows income - totalFor m rows expense
                           - totalFor m rows savings)%float) MONTHS) 0%float
    /\ (integral_sheet rows = true ->
        (sheet_total rows < 2 ^ 53)%Z ->
        of_net (annualTotals rows)
        = (of_income (annualTotals rows) - of_expense (annualTotals rows)
           - of_savings (annualTotals rows))%float).
Proof.
  intros rows. split; [|split].
  - intros m.
    rewrite monthlyTotals_income, monthlyTotals_expense, monthlyTotals_savings,
      monthlyTotals_net.
    rewrite !obj_get_months. repeat split.
  - unfold annualTotals. cbn [of_net].
    now rewrite monthlyTotals_net, sumRecord_months.
  - intros Hint Hbound. apply Prim2SF_inj.
    rewrite annual_net_repr, annual_difference_repr by assumption. reflexivity.
Qed.

Lemma annual_net_identity_witness :
  integral_sheet (cloneRows defaultRows) = true
  /\ (sheet_total (cloneRows defaultRows) < 2 ^ 53)%Z
  /\ of_net (annualTotals (cloneRows defaultRows))
     = (of_income (annualTotals (cloneRows defaultRows))
        - of_expense (annualTotals (cloneRows defaultRows))
        - of_savings (annualTotals (cloneRows defaultRows)))%float.
Proof.
  assert (H1 : integral_sheet (cloneRows defaultRows) = true) by (vm_compute; reflexivity).
  assert (H2 : (sheet_total (cloneRows defaultRows) < 2 ^ 53)%Z) by (vm_compute; reflexivity).
  split; [exact H1|]. split; [exact H2|].
  destruct (annual_net_identity (cloneRows defaultRows)) as (_ & _ & H).
  exact (H H1 H2).
Defined.

(** C1, the claim as stated, fails on amounts that are not whole: with an
    income of 0.1 and 0.2 and an expense of 0.3 the twelve monthly nets add
    up to another double than the difference of the annual totals. *)
Lemma annual_net_rounds :
  Forall (fun row => has_month_keys (values row)) fractional_rows
  /\ sheet_ok fractional_rows
  /\ of_net (annualTotals fractional_rows)
     <> (of_income (annualTotals fractional_rows)
         - of_expense (annualTotals fractional_rows)
         - of_savings (annualTotals fractional_rows))%float
  /\ (of_net (annualTotals fractional_rows)
      =? (of_income (annualTotals fractional_rows)
          - of_expense (annualTotals fractional_rows)
          - of_savings (annualTotals fractional_rows)))%float = false.
Proof.
  split; [repeat constructor|]. split; [repeat constructor|].
  assert (E : (of_net (annualTotals fractional_rows)
               =? (of_income (annualTotals fractional_rows)
                   - of_expense (annualTotals fractional_rows)
                   - of_savings (annualTotals fractional_rows)))%float = false)
    by (vm_compute; reflexivity).
  split; [|exact E].
  intros H. rewrite <- H in E. vm_compute in E. discriminate E.
Qed.

(** ** The largest expense *)

Section SortFacts.
Context {A : Type} (comparefn : A -> A -> number).

Lemma hd_sort_insert x l :
  hd_error (sort_insert comparefn x l)
  = Some match l with
         | [] => x
         | y :: _ => if (0 <? comparefn x y)%float then y else x
         end.
Proof.
  destruct l as [|y l]; simpl; auto.
  now destruct (0 <? comparefn x y)%float.
Qed.

Lemma sort_nil_inv l : sort comparefn l = [] -> l = [].
Proof.
  destruct l as [|x l]; auto. simpl. intros H.
  pose proof (hd_sort_insert x (sort comparefn l)) as Hd.
  rewrite H in Hd. discriminate Hd.
Qed.

End SortFacts.

(** The head of the sorted totals is the first entry that no entry exceeds. *)
Lemma sorted_head_first_largest (entries : list ExpenseTotal) :
  Forall (fun e => PrimFloat.is_nan (total e) = false) entries ->
  match hd_error (sort by_total entries) with
  | None => entries = []
  | Some e =>
      exists i,
        nth_error entries i = Some e
        /\ (forall y, In y entries -> (total e <? total y)%float = false)
        /\ (forall j y, (j < i)%nat -> nth_error entries j = Some y ->
              (total y <? total e)%float = true)
  end.
Proof.
  induction 1 as [|x l Hx Hl IH]; [reflexivity|].
  cbn [sort fold_right]. fold (sort by_total l).
  rewrite hd_sort_insert.
  destruct (sort by_total l) as [|b rest] eqn:Hs.
  - apply sort_nil_inv in Hs. subst l.
    exists 0%nat. split; [reflexivity|]. split.
    + intros y [<-|[]]. rewrite ltb_ord by assumption. apply Z.ltb_irrefl.
    + intros j y Hj. inversion Hj.
  - cbn [hd_error] in IH. destruct IH as (i & Hi & Hmax & Hfirst).
    assert (Hb : PrimFloat.is_nan (total b) = false).
    { rewrite Forall_forall in Hl. apply Hl. eapply nth_error_In; eauto. }
    unfold by_total. rewrite sub_sign by assumption.
    destruct (total x <? total b)%float eqn:Lt.
    + exists (S i). split; [exact Hi|]. split.
      * intros y [<-|Hy]; [|now apply Hmax].
        rewrite ltb_ord in * by assumption.
        apply Z.ltb_lt in Lt. apply Z.ltb_ge. lia.
      * intros [|j] y Hj Hy; cbn [nth_error] in Hy.
        -- now injection Hy as <-.
        -- apply (Hfirst j); [lia|exact Hy].
    + exists 0%nat. split; [reflexivity|]. split.
      * intros y [<-|Hy].
        -- rewrite ltb_ord by assumption. apply Z.ltb_irrefl.
        -- assert (Hny : PrimFloat.is_nan (total y) = false)
             by (rewrite Forall_forall in Hl; now apply Hl).
           specialize (Hmax y Hy).
           rewrite ltb_ord in * by assumption.
           apply Z.ltb_ge in Lt, Hmax. apply Z.ltb_ge. lia.
      * intros j y Hj. inversion Hj.
Qed.

(** In a sheet without negative amounts no annual total is [NaN]. *)
Lemma sheet_ok_totals rows :
  sheet_ok rows ->
  Forall (fun row => PrimFloat.is_nan (sumRecord (values row)) = false)
    (expenseRows rows).
Proof.
  intros H. unfold expenseRows. apply Forall_filter_keep.
  unfold sheet_ok in H. rewrite Forall_forall in *. intros row Hin.
  apply nonneg_not_nan, sumRecord_nonneg. now apply H.
Qed.

Lemma expenseRows_In rows row :
  In row (expenseRows rows) <-> In row rows /\ type row = expense.
Proof.
  unfold expenseRows. rewrite filter_In.
  split; intros [H1 H2]; split; auto; destruct (type row); auto; discriminate.
Qed.

(** C6 (as amended).  When no expense row's annual total is [NaN] (as in
    every sheet whose amounts are not negative), [highestExpense] is undefined
    exactly when there is no expense row, and otherwise it is the label and annual
    total of an expense row that no expense row exceeds, and the first such
    row in row order: every expense row before it has a strictly smaller
    annual total. *)
Theorem highestExpense_first_largest :
  forall rows,
    Forall (fun row => PrimFloat.is_nan (sumRecord (values row)) = false)
      (expenseRows rows) ->
    (highestExpense rows = None <->
       forall row, In row rows -> type row <> expense)
    /\ (forall best,
          highestExpense rows = Some best ->
          exists i row,
            nth_error (expenseRows rows) i = Some row
            /\ In row rows /\ type row = expense
            /\ best = mkExpenseTotal (label row) (sumRecord (values row))
            /\ (forall row', In row' rows -> type row' = expense ->
                  (sumRecord (values row) <? sumRecord (values row'))%float = false)
            /\ (forall j row', (j < i)%nat ->
                  nth_error (expenseRows rows) j = Some row' ->
                  (sumRecord (values row') <? sumRecord (values row))%float = true)).
Proof.
  intros rows Hnan.
  set (entry := fun row => mkExpenseTotal (label row) (sumRecord (values row))).
  assert (Hent : Forall (fun e => PrimFloat.is_nan (total e) = false) (expenseTotals rows)).
  { unfold expenseTotals. rewrite Forall_map. exact Hnan. }
  pose proof (sorted_head_first_largest _ Hent) as H.
  unfold highestExpense. split.
  - split.
    + intros Hn. rewrite Hn in H. unfold expenseTotals in H.
      apply map_eq_nil in H. intros row Hin Ht.
      assert (Hr : In row (expenseRows rows)) by (apply expenseRows_In; auto).
      rewrite H in Hr. contradiction.
    + intros Hno.
      assert (He : expenseRows rows = []).
      { destruct (expenseRows rows) as [|row l] eqn:E; auto.
        assert (Hr : In row (expenseRows rows)) by (rewrite E; now left).
        apply expenseRows_In in Hr as [Hin Ht]. now apply Hno in Hin. }
      unfold expenseTotals. now rewrite He.
  - intros best Hb. rewrite Hb in H. destruct H as (i & Hi & Hmax & Hfirst).
    unfold expenseTotals in Hi. fold entry in Hi.
    destruct (nth_error (expenseRows rows) i) as [row|] eqn:Er.
    2:{ rewrite nth_error_map, Er in Hi. discriminate Hi. }
    rewrite nth_error_map, Er in Hi. cbn [option_map] in Hi. injection Hi as <-.
    exists i, row. split; [exact Er|].
    assert (Hr : In row (expenseRows rows)) by (eapply nth_error_In; eauto).
    apply expenseRows_In in Hr as [Hin Ht].
    split; [exact Hin|]. split; [exact Ht|]. split; [reflexivity|]. split.
    + intros row' Hin' Ht'.
      apply (Hmax (entry row')). unfold expenseTotals. apply in_map.
      apply expenseRows_In. auto.
    + intros j row' Hj Hj'.
      apply (Hfirst j (entry row') Hj). unfold expenseTotals.
      rewrite nth_error_map, Hj'. reflexivity.
Qed.

Lemma highestExpense_first_largest_witness :
  Forall (fun row => PrimFloat.is_nan (sumRecord (values row)) = false)
    (expenseRows (cloneRows defaultRows))
  /\ highestExpense (cloneRows defaultRows)
     = Some (mkExpenseTotal "Housing & Rent" 22200%float)
  /\ exists i row,
       nth_error (expenseRows (cloneRows defaultRows)) i = Some row
       /\ In row (cloneRows defaultRows) /\ type row = expense
       /\ mkExpenseTotal "Housing & Rent" 22200%float
          = mkExpenseTotal (label row) (sumRecord (values row)).
Proof.
  assert (H : Forall (fun row => PrimFloat.is_nan (sumRecord (values row)) = false)
                (expenseRows (cloneRows defaultRows))) by (repeat constructor).
  split; [exact H|]. split; [reflexivity|].
  destruct (highestExpense_first_largest (cloneRows defaultRows) H) as [_ Hbest].
  destruct (Hbest (mkExpenseTotal "Housing & Rent" 22200%float) eq_refl)
    as (i & row & H1 & H2 & H3 & H4 & _).
  exists i, row. auto.
Defined.

(** C6, the claim as stated, fails when an expense row's annual total is
    [NaN]: a comparison with [NaN] orders nothing, so the sort leaves a row
    with total 1 ahead of a row with total 5.  The twelve months of every
    row are numbers; the second row has [Infinity] in January and
    [-Infinity] in February. *)
Lemma highestExpense_nan_total :
  Forall (fun row => has_month_keys (values row)) unbounded_expense_rows
  /\ map (fun e => PrimFloat.is_nan (total e)) (expenseTotals unbounded_expense_rows)
     = [false; true; false]
  /\ highestExpense unbounded_expense_rows = Some (mkExpenseTotal "Small" 1%float)
  /\ In (mkRow "big" "Big" expense (months_with 5 0)%float) unbounded_expense_rows
  /\ sumRecord (months_with 5 0)%float = 5%float
  /\ (1 <? 5)%float = true
  /\ ~ (forall rows best,
          highestExpense rows = Some best ->
          forall row, In row rows -> type row = expense ->
            (total best <? sumRecord (values row))%float = false).
Proof.
  split; [repeat constructor|].
  split; [vm_compute; reflexivity|].
  split; [vm_compute; reflexivity|].
  split; [right; right; left; reflexivity|].
  split; [vm_compute; reflexivity|].
  split; [reflexivity|].
  intros H.
  specialize (H unbounded_expense_rows (mkExpenseTotal "Small" 1%float)).
  assert (E : (total (mkExpenseTotal "Small" 1%float)
               <? sumRecord (values (mkRow "big" "Big" expense (months_with 5 0)%float)))%float
              = false).
  { apply H; [vm_compute; reflexivity|right; right; left; reflexivity|reflexivity]. }
  vm_compute in E. discriminate E.
Qed.

Example highestExpense_tie :
  highestExpense tied_rows = Some (mkExpenseTotal "Rent" 1200%float)
  /\ sumRecord (months_with 500 700)%float = 1200%float.
Proof. split; reflexivity. Qed.

Example highestExpense_no_expense :
  highestExpense [mkRow "pay" "Pay" income createZeroValues] = None.
Proof. reflexivity. Qed.

(** ** The restore effect *)

Lemma absent_keeps_state r app :
  absent r ->
  exists app',
    apply_restore r app = Some app'
    /\ rows app' = rows app /\ currency app' = currency app.
Proof.
  destruct r; simpl; intros H; try contradiction; eexists; split; try reflexivity; auto.
Qed.

Lemma restore_parsed_cases (j : json) :
  (exists e, restore_parsed j = Throw e)
  \/ restore_parsed j = Normal Untouched
  \/ (exists props rows_j cur_j cloned,
        j = JObject props
        /\ obj_get "rows" props = Some rows_j
        /\ obj_get "currency" props = Some cur_j
        /\ cloneRows_parsed (Data rows_j) = Normal cloned
        /\ restore_parsed j = Normal (Restored cloned (Data cur_j))).
Proof.
  unfold restore_parsed.
  destruct j as [| b | n | s | items | props];
    try (right; left; reflexivity).
  - left. eexists. reflexivity.
  - cbn [get_prop bind].
    destruct (obj_get "rows" props) as [rows_j|] eqn:R;
      [|right; left; reflexivity].
    destruct (truthy_value (Data rows_j)); [|right; left; reflexivity].
    destruct (obj_get "currency" props) as [cur_j|] eqn:C;
      [|right; left; reflexivity].
    destruct (truthy_value (Data cur_j)); [|right; left; reflexivity].
    destruct (cloneRows_parsed (Data rows_j)) as [cloned|e] eqn:K; cbn [bind].
    + right. right. exists props, rows_j, cur_j, cloned. repeat split; auto.
    + left. eexists. reflexivity.
Qed.

Lemma restore_parsed_lacks (j : json) r :
  lacks j "rows" \/ lacks j "currency" ->
  restore_parsed j = Normal r -> r = Untouched.
Proof.
  intros Hl. unfold restore_parsed.
  destruct j as [| b | n | s | items | props];
    try (intros H; injection H as <-; reflexivity); try discriminate.
  cbn [lacks] in Hl. cbn [get_prop bind].
  destruct (obj_get "rows" props) as [rows_j|] eqn:R;
    [|intros H; injection H as <-; reflexivity].
  destruct (truthy_value (Data rows_j)); [|intros H; injection H as <-; reflexivity].
  destruct (obj_get "currency" props) as [cur_j|] eqn:C;
    [|intros H; injection H as <-; reflexivity].
  destruct Hl; congruence.
Qed.

Lemma restore_effect_empty JSON_parse storage :
  getItem STORAGE_KEY storage = Some "" ->
  restore_effect JSON_parse storage = Normal Untouched.
Proof. intros G. unfold restore_effect. now rewrite G. Qed.

Lemma restore_effect_text JSON_parse storage raw :
  getItem STORAGE_KEY storage = Some raw -> raw <> "" ->
  restore_effect JSON_parse storage
  = try_catch (parsed <- JSON_parse raw ;; restore_parsed parsed)
      (fun _ => Normal (Warned "Unable to restore saved finance sheet state")).
Proof.
  intros G Hne. unfold restore_effect. rewrite G.
  destruct raw; [congruence|reflexivity].
Qed.

(** C9 (as amended).  The restore effect never throws.  It leaves the state
    alone when the key is absent or holds the empty string; when the stored
    text is not empty and [JSON.parse] rejects it, it leaves the state alone
    and logs a warning; when the parsed value has no [rows] or no [currency]
    field the persisted state also counts as absent.  A state is restored
    only from a parsed object that has both fields. *)
Theorem restore_effect_tolerant :
  forall JSON_parse storage,
  exists r,
    restore_effect JSON_parse storage = Normal r
    /\ (getItem STORAGE_KEY storage = None -> r = Untouched)
    /\ (getItem STORAGE_KEY storage = Some "" -> r = Untouched)
    /\ (forall raw e,
          getItem STORAGE_KEY storage = Some raw -> raw <> "" ->
          JSON_parse raw = Throw e ->
          exists msg, r = Warned msg)
    /\ (forall raw j,
          getItem STORAGE_KEY storage = Some raw ->
          JSON_parse raw = Normal j ->
          lacks j "rows" \/ lacks j "currency" ->
          absent r)
    /\ (forall new_rows c,
          r = Restored new_rows c ->
          exists raw props rows_j cur_j,
            getItem STORAGE_KEY storage = Some raw
            /\ JSON_parse raw = Normal (JObject props)
            /\ obj_get "rows" props = Some rows_j
            /\ obj_get "currency" props = Some cur_j
            /\ c = Data cur_j)
    /\ (absent r ->
        forall app, exists app',
          apply_restore r app = Some app'
          /\ rows app' = rows app /\ currency app' = currency app).
Proof.
  intros JSON_parse storage.
  destruct (getItem STORAGE_KEY storage) as [raw|] eqn:G.
  2:{ exists Untouched. unfold restore_effect. rewrite G.
      repeat split; try congruence; try (intros; discriminate).
      intros _ app. now apply absent_keeps_state. }
  destruct (string_dec raw "") as [->|Hne].
  { exists Untouched. rewrite (restore_effect_empty _ _ G).
    repeat split; try congruence; try (intros; discriminate).
    intros _ app. now apply absent_keeps_state. }
  rewrite (restore_effect_text _ _ _ G Hne).
  destruct (JSON_parse raw) as [j|e] eqn:P; cbn [bind try_catch].
  2:{ eexists. split; [reflexivity|].
      repeat split; try congruence; try (intros; discriminate).
      - intros; eexists; reflexivity.
      - intros _ app. now apply absent_keeps_state. }
  destruct (restore_parsed_cases j)
    as [[e He] | [Hu | (props & rows_j & cur_j & cloned & -> & R & C & K & Hr)]].
  - rewrite He. cbn [try_catch]. eexists. split; [reflexivity|].
    repeat split; try congruence; try (intros; discriminate).
    intros _ app. now apply absent_keeps_state.
  - rewrite Hu. cbn [try_catch]. eexists. split; [reflexivity|].
    repeat split; try congruence; try (intros; discriminate).
    intros _ app. now apply absent_keeps_state.
  - rewrite Hr. cbn [try_catch]. eexists. split; [reflexivity|].
    split; [congruence|]. split; [congruence|].
    split; [intros raw' e G' _ P'; congruence|].
    split.
    { intros raw' j' G' P' Hl. injection G' as <-. rewrite P in P'.
      injection P' as <-. apply (restore_parsed_lacks _ _ Hl) in Hr. discriminate Hr. }
    split.
    { intros new_rows c H. injection H as <- <-.
      exists raw, props, rows_j, cur_j. auto. }
    intros [].
Qed.

Lemma restore_effect_tolerant_witness :
  exists r,
    restore_effect reject_all [] = Normal r
    /\ r = Untouched.
Proof.
  destruct (restore_effect_tolerant reject_all [])
    as (r & Hr & Hnone & _).
  exists r. split; [exact Hr|]. apply Hnone. reflexivity.
Defined.

(** C9, the claim as stated, fails on the empty stored string: [JSON.parse]
    rejects the empty text, so the stored value is not valid data, yet the
    effect returns before parsing and logs nothing. *)
Lemma restore_effect_empty_string_silent :
  let storage := [(STORAGE_KEY, "")] in
  getItem STORAGE_KEY storage = Some ""
  /\ (exists e, reject_all "" = Throw e)
  /\ restore_effect reject_all storage = Normal Untouched
  /\ (forall msg, restore_effect reject_all storage <> Normal (Warned msg))
  /\ (forall app,
        exists app',
          apply_restore Untouched app = Some app' /\ console app' = console app)
  /\ ~ (forall JSON_parse storage raw e,
          getItem STORAGE_KEY storage = Some raw ->
          JSON_parse raw = Throw e ->
          exists msg, restore_effect JSON_parse storage = Normal (Warned msg)).
Proof.
  cbv zeta. split; [reflexivity|]. split; [eexists; reflexivity|].
  split; [reflexivity|]. split; [intros msg; discriminate|].
  split; [intros app; exists app; split; reflexivity|].
  intros H.
  destruct (H reject_all [(STORAGE_KEY, "")] "" (SyntaxError "Unexpected end of JSON input")
              eq_refl eq_refl) as [msg Hm].
  discriminate Hm.
Qed.

(** What a restore installs. *)
Lemma restore_effect_restored JSON_parse storage new_rows c :
  restore_effect JSON_parse storage = Normal (Restored new_rows c) ->
  exists raw props rows_j,
    getItem STORAGE_KEY storage = Some raw
    /\ JSON_parse raw = Normal (JObject props)
    /\ obj_get "rows" props = Some rows_j
    /\ cloneRows_parsed (Data rows_j) = Normal new_rows.
Proof.
  intros H. destruct (getItem STORAGE_KEY storage) as [raw|] eqn:G.
  2:{ unfold restore_effect in H. rewrite G in H. discriminate H. }
  destruct (string_dec raw "") as [->|Hne].
  { rewrite (restore_effect_empty _ _ G) in H. discriminate H. }
  rewrite (restore_effect_text _ _ _ G Hne) in H.
  destruct (JSON_parse raw) as [j|e] eqn:P; cbn [bind try_catch] in H;
    [|discriminate H].
  destruct (restore_parsed_cases j)
    as [[e He] | [Hu | (props & rows_j & cur_j & cloned & -> & R & C & K & Hr)]].
  - rewrite He in H. discriminate H.
  - rewrite Hu in H. discriminate H.
  - rewrite Hr in H. cbn [try_catch] in H. injection H as <- <-.
    exists raw, props, rows_j. auto.
Qed.

(** Cloning a stored row of the declared type gives the same row. *)
Lemma clone_row_decodes item row cloned :
  row_of_json item = Some row ->
  (vals <- get_prop item "values" ;;
   Normal (JObject (obj_set "values" (JObject (own_props vals))
                      (own_props (Data item))))) = Normal cloned ->
  row_of_json cloned = Some row.
Proof.
  destruct item as [| b | n | s | items | props]; try discriminate.
  cbn [row_of_json get_prop bind own_props].
  destruct (obj_get "id" props) as [[| | | i | |]|] eqn:Hi; try discriminate.
  destruct (obj_get "label" props) as [[| | | l | |]|] eqn:Hl; try discriminate.
  destruct (obj_get "type" props) as [[| | | t | |]|] eqn:Ht; try discriminate.
  destruct (obj_get "values" props) as [[| | | | |vs]|] eqn:Hv; try discriminate.
  intros Hrow Hc. injection Hc as <-. cbn [own_props row_of_json]. unfold spread.
  rewrite !obj_get_set_neq by discriminate.
  rewrite obj_get_set_eq, Hi, Hl, Ht. exact Hrow.
Qed.

Lemma clone_rows_decode items : forall rs cloned,
  rows_of_json items = Some rs ->
  cloneRows_parsed (Data (JArray items)) = Normal cloned ->
  rows_of_json cloned = Some rs.
Proof.
  cbn [cloneRows_parsed].
  induction items as [|item items IH]; intros rs cloned Hrs Hc.
  - cbn in *. injection Hc as <-. exact Hrs.
  - cbn [rows_of_json] in Hrs. cbn [mapM] in Hc.
    destruct (row_of_json item) as [row|] eqn:Hrow; [|discriminate].
    destruct (rows_of_json items) as [rs'|] eqn:Hrs'; [|discriminate].
    injection Hrs as <-.
    match type of Hc with
    | bind ?c _ = _ => destruct c as [cl|e] eqn:Hcl; cbn [bind] in Hc; [|discriminate]
    end.
    match type of Hc with
    | bind ?c _ = _ => destruct c as [cls|e] eqn:Hcls; cbn [bind] in Hc; [|discriminate]
    end.
    injection Hc as <-. cbn [rows_of_json].
    rewrite (clone_row_decodes _ _ _ Hrow Hcl).
    now rewrite (IH rs' cls eq_refl eq_refl).
Qed.

(** A restore of a sheet found in storage installs that sheet. *)
Lemma restore_installs_stored JSON_parse app new_rows c app' rs :
  restore_effect JSON_parse (localStorage app) = Normal (Restored new_rows c) ->
  apply_restore (Restored new_rows c) app = Some app' ->
  stored_sheet JSON_parse (localStorage app) = Some rs ->
  rows app' = rs.
Proof.
  intros Hr Ha Hs.
  destruct (restore_effect_restored _ _ _ _ Hr) as (raw & props & rows_j & G & P & R & K).
  unfold stored_sheet in Hs. rewrite G, P, R in Hs.
  destruct rows_j as [| | | |items|]; try discriminate.
  pose proof (clone_rows_decode _ _ _ Hs K) as Hd.
  cbn [apply_restore] in Ha.
  destruct c as [| |[| | |cur| |]]; try discriminate.
  rewrite Hd in Ha. now injection Ha as <-.
Qed.

(** ** The sheet invariant *)

Lemma month_name_in m : In (month_name m) month_names.
Proof. destruct m; simpl; tauto. Qed.

Lemma has_month_keys_in vals m :
  has_month_keys vals -> In (month_name m) (obj_keys vals).
Proof.
  intros H. apply Permutation_in with (l := month_names).
  - now apply Permutation_sym.
  - apply month_name_in.
Qed.

Lemma template_ok : sheet_ok (cloneRows defaultRows).
Proof.
  repeat constructor.
Qed.

Lemma zero_row_ok i l t : row_ok (mkRow i l t createZeroValues).
Proof. repeat constructor. Qed.

Lemma edited_ok parseFloat rowId month value row :
  row_ok row -> row_ok (edited parseFloat rowId month value row).
Proof.
  intros [Hk Hv]. unfold edited.
  destruct (String.eqb (id row) rowId); [|now split].
  split; simpl; unfold spread.
  - unfold has_month_keys. rewrite obj_keys_set_in; auto.
    now apply has_month_keys_in.
  - apply obj_values_set_Forall; auto. apply amount_of_nonneg.
Qed.

Section Invariant.
Variable parseFloat : string -> number.
Variable trim : string -> string.
Variable JSON_stringify : PersistedState -> string.

Lemma handleChange_ok rowId month value app :
  sheet_ok (rows app) ->
  sheet_ok (rows (handleChange parseFloat rowId month value app)).
Proof.
  intros H. rewrite handleChange_rows. unfold sheet_ok in *.
  induction H; simpl; constructor; auto using edited_ok.
Qed.

Lemma addRow_ok t prompted fresh app :
  sheet_ok (rows app) -> sheet_ok (rows (addRow trim t prompted fresh app)).
Proof.
  intros H. destruct prompted as [[|c lbl]|]; simpl; auto.
  apply Forall_app. split; auto. constructor; auto. apply zero_row_ok.
Qed.

Lemma removeRow_ok rowId app :
  sheet_ok (rows app) -> sheet_ok (rows (removeRow rowId app)).
Proof. intros H. simpl. now apply Forall_filter_keep. Qed.

Lemma reset_ok confirmed app :
  sheet_ok (rows app) -> sheet_ok (rows (reset confirmed app)).
Proof. intros H. destruct confirmed; simpl; auto. apply template_ok. Qed.

End Invariant.

(** C4 (as amended).  In every state reached from the template by the
    handlers and the two effects, each row has exactly the twelve month keys
    and no negative amount, provided every sheet that the restore effect
    installs from storage is itself of that shape. *)
Theorem reachable_sheet_ok :
  forall parseFloat trim JSON_parse JSON_stringify app,
    reachable parseFloat trim JSON_parse JSON_stringify sheet_ok app ->
    sheet_ok (rows app).
Proof.
  intros parseFloat trim JSON_parse JSON_stringify app H.
  induction H as [storage
                 | app r app' Hreach IH Hr Ha Hadm
                 | app rowId month value Hreach IH
                 | app t prompted fresh Hreach IH
                 | app rowId Hreach IH
                 | app confirmed Hreach IH
                 | app code Hreach IH
                 | app Hreach IH].
  - apply template_ok.
  - destruct r as [|msg|new_rows c].
    + injection Ha as <-. exact IH.
    + injection Ha as <-. exact IH.
    + destruct Hadm as [[]|(rs & Hs & Hok)].
      now rewrite (restore_installs_stored _ _ _ _ _ _ Hr Ha Hs).
  - now apply handleChange_ok.
  - now apply addRow_ok.
  - now apply removeRow_ok.
  - now apply reset_ok.
  - exact IH.
  - exact IH.
Qed.

Lemma reachable_sheet_ok_witness :
  reachable (fun _ => 0%float) (fun s => s) reject_all (fun _ => "") sheet_ok
    (handleChange (fun _ => 0%float) "rent" Jan "0"
       (addRow (fun s => s) savings (Some "Travel") "a1b2c3d4" (initialApp [])))
  /\ sheet_ok
       (rows (handleChange (fun _ => 0%float) "rent" Jan "0"
                (addRow (fun s => s) savings (Some "Travel") "a1b2c3d4" (initialApp [])))).
Proof.
  assert (R : reachable (fun _ => 0%float) (fun s => s) reject_all (fun _ => "") sheet_ok
    (handleChange (fun _ => 0%float) "rent" Jan "0"
       (addRow (fun s => s) savings (Some "Travel") "a1b2c3d4" (initialApp [])))).
  { apply reach_handleChange. apply reach_addRow. apply reach_initial. }
  split; [exact R|].
  exact (reachable_sheet_ok _ _ _ _ _ R).
Defined.

(** C4, the claim as stated, fails after a restore: the effect installs the
    stored rows without looking at their [values]. *)
Lemma restore_breaks_sheet_ok :
  reachable (fun _ => 0%float) (fun s => s) parse_stored_negative (fun _ => "")
    unchecked restored_negative
  /\ ~ sheet_ok (rows restored_negative)
  /\ (exists row,
        In row (rows restored_negative)
        /\ obj_get (month_name Feb) (values row) = None
        /\ obj_get (month_name Jan) (values row) = Some (-5)%float
        /\ ((-5) <? 0)%float = true).
Proof.
  split.
  - apply reach_restore
      with (app := initialApp storage_negative)
           (r := Restored
                   [JObject
                      [("id", JString "rent"); ("label", JString "Rent");
                       ("type", JString "expense");
                       ("values", JObject [("Jan", JNumber (-5)%float)])]]
                   (Data (JString "USD"))).
    + apply reach_initial.
    + reflexivity.
    + reflexivity.
    + right. eexists. split; [reflexivity|exact I].
  - split.
    + intros H. inversion H as [|row l [_ Hv] _]; subst.
      inversion Hv as [|v l' Hneg _]; subst. discriminate Hneg.
    + eexists. split; [left; reflexivity|]. repeat split.
Qed.


(** * Further properties *)

(** ** Removing a row *)

Lemma filter_id_absent rowId (l : list SheetRow) :
  ~ In rowId (row_ids l) ->
  filter (fun row => negb (String.eqb (id row) rowId)) l = l.
Proof.
  induction l as [|row l IH]; simpl; intros H; auto.
  destruct (String.eqb (id row) rowId) eqn:E; simpl.
  - apply String.eqb_eq in E. exfalso. apply H. now left.
  - f_equal. apply IH. intros Hin. apply H. now right.
Qed.

Lemma app_eta app : mkApp (rows app) (currency app) (localStorage app) (console app) = app.
Proof. now destruct app. Qed.

(** X1.  After [removeRow] no row carries the removed id, every row with
    another id is still in the sheet, no row is new, and the currency, the
    storage and the console are as before. *)
Theorem removeRow_removes :
  forall rowId app,
    let app' := removeRow rowId app in
    ~ In rowId (row_ids (rows app'))
    /\ (forall row, In row (rows app) -> id row <> rowId -> In row (rows app'))
    /\ (forall row, In row (rows app') -> In row (rows app))
    /\ currency app' = currency app
    /\ localStorage app' = localStorage app
    /\ console app' = console app.
Proof.
  intros rowId app app'. subst app'. unfold removeRow, setRows, row_ids. cbn [rows currency localStorage console].
  repeat split.
  - intros Hin. apply in_map_iff in Hin as (row & Hid & Hrow).
    apply filter_In in Hrow as [_ Hne].
    rewrite Hid, String.eqb_refl in Hne. discriminate Hne.
  - intros row Hin Hne. apply filter_In. split; auto.
    destruct (String.eqb (id row) rowId) eqn:E; auto.
    apply String.eqb_eq in E. contradiction.
  - intros row Hin. now apply filter_In in Hin as [Hin _].
Qed.

Lemma removeRow_removes_witness :
  ~ In "rent" (row_ids (rows (removeRow "rent" (initialApp [])))).
Proof.
  destruct (removeRow_removes "rent" (initialApp [])) as [H _]. exact H.
Defined.

(** X2.  When one row carries the id, [removeRow] takes that row out and
    leaves the rows before and after it as they were, in their order. *)
Theorem removeRow_single :
  forall rowId app before row after,
    rows app = before ++ row :: after ->
    id row = rowId ->
    ~ In rowId (row_ids before) ->
    ~ In rowId (row_ids after) ->
    rows (removeRow rowId app) = before ++ after.
Proof.
  intros rowId app before row after Hrows Hid Hb Ha.
  unfold removeRow, setRows. cbn [rows]. rewrite Hrows, filter_app. cbn [filter].
  rewrite Hid, String.eqb_refl. cbn [negb].
  now rewrite !filter_id_absent.
Qed.

Lemma removeRow_single_witness :
  rows (removeRow "rent" (mkApp tied_rows "USD" [] []))
  = [mkRow "pay" "Pay" income (months_with 900 900)%float;
     mkRow "food" "Food" expense (months_with 500 700)%float].
Proof.
  apply (removeRow_single "rent" (mkApp tied_rows "USD" [] [])
           [mkRow "pay" "Pay" income (months_with 900 900)%float]
           (mkRow "rent" "Rent" expense (months_with 700 500)%float)
           [mkRow "food" "Food" expense (months_with 500 700)%float]).
  - reflexivity.
  - reflexivity.
  - simpl. intros [H|[]]. discriminate H.
  - simpl. intros [H|[]]. discriminate H.
Defined.

(** X3.  [removeRow] with an id that no row carries returns the state it was
    given. *)
Theorem removeRow_unknown_id :
  forall rowId app,
    ~ In rowId (row_ids (rows app)) -> removeRow rowId app = app.
Proof.
  intros rowId app H. unfold removeRow, setRows.
  rewrite filter_id_absent by assumption. apply app_eta.
Qed.

Lemma removeRow_unknown_id_witness :
  removeRow "car" (initialApp []) = initialApp [].
Proof.
  apply (removeRow_unknown_id "car" (initialApp [])).
  simpl. intros H.
  repeat (destruct H as [H|H]; [discriminate H|]). exact H.
Defined.

(** X4.  Adding a row under an id that is not in use and removing that id
    again gives back the state from before the addition. *)
Theorem addRow_then_removeRow :
  forall trim t lbl fresh app,
    lbl <> "" ->
    ~ In fresh (row_ids (rows app)) ->
    removeRow fresh (addRow trim t (Some lbl) fresh app) = app.
Proof.
  intros trim t lbl fresh app Hl Hf.
  unfold addRow. destruct lbl as [|c lbl]; [contradiction|].
  unfold removeRow, setRows. cbn [rows currency localStorage console].
  rewrite filter_app. cbn [filter id]. rewrite String.eqb_refl. cbn [negb].
  rewrite filter_id_absent by assumption. rewrite app_nil_r. apply app_eta.
Qed.

Lemma addRow_then_removeRow_witness :
  removeRow "a1b2c3d4" (addRow (fun s => s) expense (Some "Pets") "a1b2c3d4" (initialApp []))
  = initialApp [].
Proof.
  apply (addRow_then_removeRow (fun s => s) expense "Pets" "a1b2c3d4" (initialApp [])).
  - discriminate.
  - simpl. intros H.
    repeat (destruct H as [H|H]; [discriminate H|]). exact H.
Defined.

(** ** Distinct ids *)

Lemma row_ids_filter_distinct (keep : SheetRow -> bool) (rows : list SheetRow) :
  NoDup (row_ids rows) -> NoDup (row_ids (filter keep rows)).
Proof.
  unfold row_ids. induction rows as [|row rows IH]; simpl; intros H; auto.
  inversion H as [|i ids Hrow Hrest]; subst.
  destruct (keep row); simpl; auto.
  constructor; auto.
  intros Hin. apply Hrow. apply in_map_iff in Hin as (other & Hid & Hin).
  apply in_map_iff. exists other. split; auto. now apply filter_In in Hin as [Hin _].
Qed.

Lemma row_ids_edited parseFloat rowId month value l :
  row_ids (map (edited parseFloat rowId month value) l) = row_ids l.
Proof.
  unfold row_ids. rewrite map_map. apply map_ext. intros row. apply edited_id.
Qed.

Lemma template_ids_distinct : NoDup (row_ids (cloneRows defaultRows)).
Proof.
  simpl. repeat constructor; simpl; intros H;
    repeat (destruct H as [H|H]; [discriminate H|]); exact H.
Qed.

(** X5.  The ids of the rows stay pairwise distinct under [handleChange],
    [removeRow], [reset] and [setCurrency]; under [addRow] with a non-empty
    label they stay distinct exactly when the new id is not in use: the
    handler does not look at the ids it has. *)
Theorem ids_stay_distinct :
  forall parseFloat trim app,
    NoDup (row_ids (rows app)) ->
    (forall rowId month value,
       NoDup (row_ids (rows (handleChange parseFloat rowId month value app))))
    /\ (forall rowId, NoDup (row_ids (rows (removeRow rowId app))))
    /\ (forall confirmed, NoDup (row_ids (rows (reset confirmed app))))
    /\ (forall code, NoDup (row_ids (rows (setCurrency code app))))
    /\ (forall t lbl fresh,
          lbl <> "" ->
          (NoDup (row_ids (rows (addRow trim t (Some lbl) fresh app)))
           <-> ~ In fresh (row_ids (rows app)))).
Proof.
  intros parseFloat trim app H. repeat split.
  - intros rowId month value. rewrite handleChange_rows, row_ids_edited. exact H.
  - intros rowId. unfold removeRow, setRows. cbn [rows]. now apply row_ids_filter_distinct.
  - intros [|]; cbn [reset negb rows]; [apply template_ids_distinct|exact H].
  - intros code. exact H.
  - intros Hnd Hin. destruct lbl as [|c lbl]; [contradiction|].
    unfold addRow, setRows, row_ids in Hnd. cbn [rows] in Hnd.
    rewrite map_app in Hnd. cbn [map id] in Hnd.
    apply NoDup_remove_2 in Hnd. rewrite app_nil_r in Hnd. contradiction.
  - intros Hf. destruct lbl as [|c lbl]; [contradiction|].
    unfold addRow, setRows, row_ids. cbn [rows].
    rewrite map_app. cbn [map id].
    pose proof (Add_app fresh (map id (rows app)) []) as HA.
    rewrite app_nil_r in HA. apply (NoDup_Add HA). split; auto.
Qed.

Lemma ids_stay_distinct_witness :
  NoDup (row_ids (rows (removeRow "rent" (initialApp [])))).
Proof.
  destruct (ids_stay_distinct (fun _ => 0%float) (fun s => s) (initialApp []))
    as (_ & Hremove & _).
  - apply template_ids_distinct.
  - apply Hremove.
Defined.

(** ** Edits of cells *)

Section ObjectWrites.
Context {V : Type}.

Lemma obj_set_twice k (v1 v2 : V) o :
  obj_set k v2 (obj_set k v1 o) = obj_set k v2 o.
Proof.
  induction o as [|[k' v'] o IH]; simpl.
  - now rewrite String.eqb_refl.
  - destruct (String.eqb k k') eqn:E; simpl; rewrite E; auto. now rewrite IH.
Qed.

Lemma obj_set_commute k1 k2 (v1 v2 : V) o :
  k1 <> k2 -> In k1 (obj_keys o) ->
  obj_set k1 v1 (obj_set k2 v2 o) = obj_set k2 v2 (obj_set k1 v1 o).
Proof.
  intros Hne. induction o as [|[k v] o IH]; simpl; intros Hin; [contradiction|].
  destruct (String.eqb k2 k) eqn:E2; destruct (String.eqb k1 k) eqn:E1;
    simpl; rewrite ?E1, ?E2; auto.
  - apply String.eqb_eq in E1, E2. congruence.
  - f_equal. apply IH. destruct Hin as [Hk|Hin]; auto.
    subst k. rewrite String.eqb_refl in E1. discriminate E1.
Qed.

End ObjectWrites.

(** X6.  With pairwise distinct ids, [handleChange] on the id of the row at
    index [i] puts the edited row at [i] and leaves the row at every other
    index as it was. *)
Theorem handleChange_one_row :
  forall parseFloat rowId month value app i row,
    NoDup (row_ids (rows app)) ->
    nth_error (rows app) i = Some row ->
    id row = rowId ->
    let app' := handleChange parseFloat rowId month value app in
    nth_error (rows app') i
    = Some (mkRow (id row) (label row) (type row)
              (obj_set (month_name month) (amount_of parseFloat value) (values row)))
    /\ forall j, j <> i -> nth_error (rows app') j = nth_error (rows app) j.
Proof.
  intros parseFloat rowId month value app i row Hnd Hi Hid app'. subst app'.
  rewrite handleChange_rows. split.
  - rewrite nth_error_map, Hi. cbn [option_map]. unfold edited.
    rewrite Hid, String.eqb_refl. subst rowId. reflexivity.
  - intros j Hj. rewrite nth_error_map.
    destruct (nth_error (rows app) j) as [other|] eqn:Ej; cbn [option_map]; auto.
    f_equal. apply edited_other_row. intros Hother.
    apply Hj. rewrite NoDup_nth_error in Hnd. apply Hnd.
    + apply nth_error_Some. unfold row_ids. rewrite nth_error_map, Ej. discriminate.
    + unfold row_ids. rewrite !nth_error_map, Ej, Hi. cbn [option_map]. congruence.
Qed.

Lemma handleChange_one_row_witness :
  nth_error (rows (handleChange (fun _ => 40%float) "food" Jan "40"
                     (mkApp tied_rows "USD" [] []))) 1
  = nth_error tied_rows 1.
Proof.
  destruct (handleChange_one_row (fun _ => 40%float) "food" Jan "40"
              (mkApp tied_rows "USD" [] []) 2
              (mkRow "food" "Food" expense (months_with 500 700)%float))
    as [_ Hothers].
  - simpl. repeat constructor; simpl; intros H;
      repeat (destruct H as [H|H]; [discriminate H|]); exact H.
  - reflexivity.
  - reflexivity.
  - apply (Hothers 1%nat). discriminate.
Defined.

(** X7.  Of two edits of the same cell the later one wins: the state is the
    one that the second edit alone produces.  In particular an edit made
    twice is the edit made once. *)
Theorem handleChange_last_wins :
  forall parseFloat rowId month value1 value2 app,
    handleChange parseFloat rowId month value2
      (handleChange parseFloat rowId month value1 app)
    = handleChange parseFloat rowId month value2 app.
Proof.
  intros parseFloat rowId month value1 value2 app.
  unfold handleChange, setRows. cbn [rows currency localStorage console].
  f_equal. rewrite map_map. apply map_ext. intros row.
  unfold edited. destruct (String.eqb (id row) rowId) eqn:E; cbn [id]; rewrite E; auto.
  cbn [id label type values]. unfold spread. now rewrite obj_set_twice.
Qed.

(** X8.  Edits of two different cells can be made in either order, in a
    sheet whose rows carry the twelve month keys. *)
Theorem handleChange_commute :
  forall parseFloat rowId1 month1 value1 rowId2 month2 value2 app,
    rowId1 <> rowId2 \/ month1 <> month2 ->
    Forall (fun row => has_month_keys (values row)) (rows app) ->
    handleChange parseFloat rowId1 month1 value1
      (handleChange parseFloat rowId2 month2 value2 app)
    = handleChange parseFloat rowId2 month2 value2
        (handleChange parseFloat rowId1 month1 value1 app).
Proof.
  intros parseFloat rowId1 month1 value1 rowId2 month2 value2 app Hne Hkeys.
  unfold handleChange, setRows. cbn [rows currency localStorage console].
  f_equal. rewrite !map_map. apply map_ext_in. intros row Hin.
  rewrite Forall_forall in Hkeys. specialize (Hkeys row Hin).
  unfold edited.
  destruct (String.eqb (id row) rowId1) eqn:E1;
    destruct (String.eqb (id row) rowId2) eqn:E2;
    cbn [id label type values]; rewrite ?E1, ?E2; auto.
  cbn [id label type values]. unfold spread. f_equal.
  apply String.eqb_eq in E1, E2.
  destruct Hne as [Hne|Hne]; [congruence|].
  apply obj_set_commute.
  - intros Hm. apply month_name_inj in Hm. contradiction.
  - now apply has_month_keys_in.
Qed.

Lemma handleChange_commute_witness :
  handleChange (fun _ => 40%float) "rent" Jan "40"
    (handleChange (fun _ => 40%float) "rent" Feb "40" (initialApp []))
  = handleChange (fun _ => 40%float) "rent" Feb "40"
      (handleChange (fun _ => 40%float) "rent" Jan "40" (initialApp [])).
Proof.
  apply (handleChange_commute (fun _ => 40%float) "rent" Jan "40" "rent" Feb "40"
           (initialApp [])).
  - right. discriminate.
  - repeat constructor.
Defined.

(** ** Totals of the sheet *)

Section ZeroSummand.
Local Open Scope Z_scope.

Lemma SFadd_not_neg_zero x y :
  valid_binary x = true -> valid_binary y = true ->
  x <> S754_zero true -> SFadd prec emax x y <> S754_zero true.
Proof.
  intros Vx Vy Hx.
  destruct x as [sx|sx| |sx mx ex]; destruct y as [sy|sy| |sy my ey];
    cbn [SFadd]; try discriminate; try assumption.
  - destruct sx; [congruence|]. destruct sy; discriminate.
  - destruct sx, sy; discriminate.
  - cbn [valid_binary] in *.
    destruct (bounded_facts _ _ Vx) as (Hex & _).
    destruct (bounded_facts _ _ Vy) as (Hey & _).
    change (IntDef.Z.min ex ey) with (Z.min ex ey).
    set (ez := Z.min ex ey).
    destruct (cond_Zopp sx (Z.pos (fst (shl_align mx ex ez)))
              + cond_Zopp sy (Z.pos (fst (shl_align my ey ez)))) as [|D|D];
      cbn [binary_normalize]; [discriminate| |].
    + destruct (binary_round_signed false D ez) as [E|(m & e & E)];
        [unfold ez, SpecFloat.emin, prec, emax; lia|rewrite E; discriminate|rewrite E; discriminate].
    + destruct (binary_round_signed true D ez) as [E|(m & e & E)];
        [unfold ez, SpecFloat.emin, prec, emax; lia|rewrite E; discriminate|rewrite E; discriminate].
Qed.

Lemma SFadd_zero_r x :
  x <> S754_zero true -> SFadd prec emax x (S754_zero false) = x.
Proof.
  destruct x as [sx|sx| |sx mx ex]; cbn [SFadd]; auto.
  destruct sx; [congruence|reflexivity].
Qed.

End ZeroSummand.

Lemma is_neg_zero_false x : JS.is_neg_zero x = false <-> Prim2SF x <> S754_zero true.
Proof.
  unfold JS.is_neg_zero. split.
  - intros H E. rewrite E in H. discriminate H.
  - intros H. destruct (Prim2SF x) as [[|]|s| |s m e]; auto. congruence.
Qed.

Lemma add_not_neg_zero a b :
  JS.is_neg_zero a = false -> JS.is_neg_zero (a + b)%float = false.
Proof.
  rewrite !is_neg_zero_false, FloatAxioms.add_spec.
  apply SFadd_not_neg_zero; apply Prim2SF_valid.
Qed.

Lemma add_zero_r a : JS.is_neg_zero a = false -> (a + 0)%float = a.
Proof.
  rewrite is_neg_zero_false. intros H. apply Prim2SF_inj.
  rewrite FloatAxioms.add_spec, Prim2SF_zero. now apply SFadd_zero_r.
Qed.

Lemma fold_add_not_neg_zero vs : forall acc,
  JS.is_neg_zero acc = false ->
  JS.is_neg_zero (fold_left (fun t c => (t + c)%float) vs acc) = false.
Proof.
  induction vs as [|v vs IH]; intros acc H; simpl; auto.
  apply IH. now apply add_not_neg_zero.
Qed.

Lemma totalFor_not_neg_zero m rows t : JS.is_neg_zero (totalFor m rows t) = false.
Proof.
  unfold totalFor.
  rewrite (fold_left_map (fun a b => (a + b)%float)
             (fun row => value_or_zero (values row) m)).
  now apply fold_add_not_neg_zero.
Qed.

Lemma totalFor_zero_row m rows t i l t' :
  totalFor m (rows ++ [mkRow i l t' createZeroValues]) t = totalFor m rows t.
Proof.
  pose proof (totalFor_not_neg_zero m rows t) as H.
  unfold totalFor in *. rewrite filter_app. cbn [filter type].
  destruct (CategoryType_eqb t' t); [|now rewrite app_nil_r].
  rewrite fold_left_app. cbn [fold_left values].
  replace (value_or_zero createZeroValues m) with 0%float
    by (unfold value_or_zero; now rewrite createZeroValues_get).
  now apply add_zero_r.
Qed.

Lemma monthlyTotals_columns rows :
  monthlyTotals rows
  = mkPerCategory
      (map (fun m => (month_name m, totalFor m rows income)) MONTHS)
      (map (fun m => (month_name m, totalFor m rows expense)) MONTHS)
      (map (fun m => (month_name m, totalFor m rows savings)) MONTHS)
      (map (fun m => (month_name m, monthlyNet m rows)) MONTHS).
Proof. reflexivity. Qed.

Lemma monthlyTotals_ext rows rows' :
  (forall m t, totalFor m rows t = totalFor m rows' t) ->
  monthlyTotals rows = monthlyTotals rows'.
Proof.
  intros H. rewrite !monthlyTotals_columns. unfold monthlyNet.
  f_equal; apply map_ext; intros m; now rewrite ?H.
Qed.

Lemma expenseTotals_other_row rows row :
  type row <> expense -> expenseTotals (rows ++ [row]) = expenseTotals rows.
Proof.
  intros Ht. unfold expenseTotals, expenseRows. rewrite filter_app. cbn [filter].
  destruct (type row); cbn [CategoryType_eqb]; try contradiction;
    now rewrite app_nil_r.
Qed.

(** X9.  A row added by [addRow] leaves the monthly totals, the annual
    totals and the savings rate as they were, whatever the sheet holds.  The
    largest expense is as it was when the new row is not an expense row; a
    new expense row in a sheet without expense rows becomes the largest
    expense, with total 0. *)
Theorem addRow_keeps_totals :
  forall trim t lbl fresh app,
    lbl <> "" ->
    let app' := addRow trim t (Some lbl) fresh app in
    monthlyTotals (rows app') = monthlyTotals (rows app)
    /\ annualTotals (rows app') = annualTotals (rows app)
    /\ savingsRate (rows app') = savingsRate (rows app)
    /\ (t <> expense -> highestExpense (rows app') = highestExpense (rows app))
    /\ (t = expense -> expenseRows (rows app) = [] ->
        highestExpense (rows app) = None
        /\ highestExpense (rows app') = Some (mkExpenseTotal (trim lbl) 0%float)).
Proof.
  intros trim t lbl fresh app Hl app'. subst app'.
  destruct lbl as [|c lbl]; [contradiction|].
  unfold addRow, setRows. cbn [rows].
  assert (E : monthlyTotals (rows app ++ [mkRow fresh (trim (String c lbl)) t createZeroValues])
              = monthlyTotals (rows app)).
  { apply monthlyTotals_ext. intros m t'. apply totalFor_zero_row. }
  split; [exact E|].
  split; [unfold annualTotals; now rewrite E|].
  split; [unfold savingsRate, annualTotals; now rewrite E|].
  split.
  - intros Ht. unfold highestExpense. now rewrite expenseTotals_other_row.
  - intros -> Hnone. unfold highestExpense, expenseTotals, expenseRows in *.
    rewrite filter_app, Hnone. split; reflexivity.
Qed.

Lemma addRow_keeps_totals_witness :
  savingsRate (rows (addRow (fun s => s) income (Some "Bonus") "a1b2c3d4" (initialApp [])))
  = savingsRate (rows (initialApp []))
  /\ highestExpense
       (rows (addRow (fun s => s) income (Some "Bonus") "a1b2c3d4" (initialApp [])))
     = highestExpense (rows (initialApp [])).
Proof.
  destruct (addRow_keeps_totals (fun s => s) income "Bonus" "a1b2c3d4" (initialApp []))
    as (_ & _ & Hrate & Hhigh & _).
  - discriminate.
  - split; [exact Hrate|]. apply Hhigh. discriminate.
Defined.

Lemma annual_nonneg rows t :
  sheet_ok rows ->
  nonneg (sumRecord (map (fun m => (month_name m, totalFor m rows t)) MONTHS)).
Proof.
  intros H. rewrite sumRecord_months.
  apply fold_add_nonneg; [apply nonneg_zero|].
  rewrite Forall_map, Forall_forall. intros m _. now apply totalFor_nonneg.
Qed.

(** X10.  In a sheet whose rows carry the twelve months with amounts that
    are zero or more, no total is negative or [NaN]: not a month's total of
    a category, not the annual totals of income, expenses and savings, and
    not the annual total of a row. *)
Theorem totals_nonneg :
  forall rows,
    sheet_ok rows ->
    (forall m t, nonneg (totalFor m rows t))
    /\ nonneg (of_income (annualTotals rows))
    /\ nonneg (of_expense (annualTotals rows))
    /\ nonneg (of_savings (annualTotals rows))
    /\ (forall row, In row rows -> nonneg (sumRecord (values row))).
Proof.
  intros rows H. unfold annualTotals. rewrite monthlyTotals_columns.
  cbn [of_income of_expense of_savings].
  repeat split; try (now apply annual_nonneg).
  - intros m t. now apply totalFor_nonneg.
  - intros row Hin. apply sumRecord_nonneg.
    unfold sheet_ok in H. rewrite Forall_forall in H. now apply H.
Qed.

Lemma totals_nonneg_witness :
  nonneg (of_expense (annualTotals (cloneRows defaultRows))).
Proof.
  destruct (totals_nonneg (cloneRows defaultRows)) as (_ & _ & H & _).
  - repeat constructor.
  - exact H.
Defined.

Section ExactTotals.
Local Open Scope Z_scope.

Lemma of_Z_repr x n : Prim2SF x = Zrepr n -> Z.abs n < 2 ^ 53 -> x = JS.of_Z n.
Proof.
  intros H Hn. unfold JS.of_Z.
  rewrite (binary_normalize_int n 0 n) by (auto; lia || (simpl; lia)).
  rewrite <- H. symmetry. apply SF2Prim_Prim2SF.
Qed.

Lemma Zsum_filter_perm {A} (f : A -> Z) (p : A -> bool) (l l' : list A) :
  Permutation l l' -> Zsum (map f (filter p l)) = Zsum (map f (filter p l')).
Proof.
  induction 1 as [|x l l' Hp IH|x y l|l l' l'' H1 IH1 H2 IH2]; cbn [filter];
    auto.
  - destruct (p x); cbn [map Zsum fold_right]; fold (Zsum (map f (filter p l)));
      fold (Zsum (map f (filter p l'))); lia.
  - destruct (p x), (p y); cbn [map Zsum fold_right]; auto.
    fold (Zsum (map f (filter p l))). lia.
  - congruence.
Qed.

Lemma Zsum_perm {A} (f : A -> Z) (l l' : list A) :
  Permutation l l' -> Zsum (map f l) = Zsum (map f l').
Proof.
  intros H. pose proof (Zsum_filter_perm f (fun _ => true) l l' H) as E.
  assert (F : forall k : list A, filter (fun _ => true) k = k).
  { induction k; simpl; congruence. }
  now rewrite !F in E.
Qed.

Lemma integral_sheet_perm rows rows' :
  Permutation rows rows' -> integral_sheet rows = true -> integral_sheet rows' = true.
Proof.
  unfold integral_sheet. intros Hp H. rewrite forallb_forall in *.
  intros row Hin. apply H. apply Permutation_in with (l := rows'); auto.
  now apply Permutation_sym.
Qed.

Lemma sheet_total_perm rows rows' :
  Permutation rows rows' -> sheet_total rows = sheet_total rows'.
Proof.
  intros Hp. unfold sheet_total, columnZ. f_equal. apply map_ext. intros m.
  now apply Zsum_perm.
Qed.

End ExactTotals.

(** X11.  In a sheet of whole-number amounts that add up to less than
    [2^53], every total is exact: a month's total of a category and the
    annual total of a category are the doubles of the integer sums, and the
    annual net is the double of income minus expenses minus savings. *)
Theorem totals_exact :
  forall rows,
    integral_sheet rows = true ->
    (sheet_total rows < 2 ^ 53)%Z ->
    (forall m t, totalFor m rows t = JS.of_Z (totalForZ m rows t))
    /\ of_income (annualTotals rows) = JS.of_Z (annualZ rows income)
    /\ of_expense (annualTotals rows) = JS.of_Z (annualZ rows expense)
    /\ of_savings (annualTotals rows) = JS.of_Z (annualZ rows savings)
    /\ of_net (annualTotals rows)
       = JS.of_Z (annualZ rows income - annualZ rows expense - annualZ rows savings)%Z.
Proof.
  intros rows Hint Hbound.
  pose proof (annualZ_nonneg rows Hint income) as Hi.
  pose proof (annualZ_nonneg rows Hint expense) as He.
  pose proof (annualZ_nonneg rows Hint savings) as Hs.
  pose proof (annualZ_total rows) as Ht.
  repeat split.
  - intros m t. apply of_Z_repr; [now apply totalFor_repr|].
    destruct (month_facts rows Hint m) as (H1 & H2 & H3 & H4).
    pose proof (columnZ_le_total rows Hint m).
    destruct t; lia.
  - apply of_Z_repr; [|lia]. unfold annualTotals. cbn [of_income].
    apply annual_repr; auto.
  - apply of_Z_repr; [|lia]. unfold annualTotals. cbn [of_expense].
    apply annual_repr; auto.
  - apply of_Z_repr; [|lia]. unfold annualTotals. cbn [of_savings].
    apply annual_repr; auto.
  - apply of_Z_repr; [|lia]. now apply annual_net_repr.
Qed.

Lemma totals_exact_witness :
  of_expense (annualTotals (cloneRows defaultRows))
  = JS.of_Z (annualZ (cloneRows defaultRows) expense).
Proof.
  destruct (totals_exact (cloneRows defaultRows)) as (_ & _ & H & _).
  - vm_compute. reflexivity.
  - vm_compute. reflexivity.
  - exact H.
Defined.

(** X12.  In a sheet of whole-number amounts that add up to less than
    [2^53], the order of the rows does not matter to the totals: a
    reordered sheet has the same monthly and annual totals. *)
Theorem totals_row_order :
  forall rows rows',
    Permutation rows rows' ->
    integral_sheet rows = true ->
    (sheet_total rows < 2 ^ 53)%Z ->
    monthlyTotals rows' = monthlyTotals rows
    /\ annualTotals rows' = annualTotals rows
    /\ savingsRate rows' = savingsRate rows.
Proof.
  intros rows rows' Hp Hint Hbound.
  assert (E : monthlyTotals rows' = monthlyTotals rows).
  { apply monthlyTotals_ext. intros m t. apply Prim2SF_inj.
    rewrite (totalFor_repr rows Hint Hbound).
    rewrite (totalFor_repr rows').
    - unfold totalForZ. f_equal. apply Zsum_filter_perm. now apply Permutation_sym.
    - now apply integral_sheet_perm with (rows := rows).
    - now rewrite <- (sheet_total_perm rows rows'). }
  unfold savingsRate, annualTotals. now rewrite E.
Qed.

Lemma totals_row_order_witness :
  annualTotals (rev (cloneRows defaultRows)) = annualTotals (cloneRows defaultRows).
Proof.
  apply (totals_row_order (cloneRows defaultRows) (rev (cloneRows defaultRows))).
  - apply Permutation_rev.
  - vm_compute. reflexivity.
  - vm_compute. reflexivity.
Defined.

(** X13.  The annual total of a row whose amounts are whole numbers, zero
    or more, that add up to less than [2^53] is exact: it is the double of
    the integer sum of the amounts. *)
Theorem sumRecord_exact :
  forall vals,
    forallb natural (obj_values vals) = true ->
    (Zsum (map amountZ (obj_values vals)) < 2 ^ 53)%Z ->
    sumRecord vals = JS.of_Z (Zsum (map amountZ (obj_values vals))).
Proof.
  intros vals Hnat Hb. rewrite forallb_forall in Hnat.
  assert (Hpos : Forall (fun z => (0 <= z)%Z) (map amountZ (obj_values vals))).
  { rewrite Forall_map, Forall_forall. intros v Hv. now apply natural_spec, Hnat. }
  pose proof (Zsum_nonneg _ Hpos) as H0.
  apply of_Z_repr; [|lia]. unfold sumRecord.
  change (Zsum (map amountZ (obj_values vals)))
    with (0 + Zsum (map amountZ (obj_values vals)))%Z.
  apply fold_add_exact.
  - rewrite <- (map_id (obj_values vals)) at 1.
    apply Forall2_map_repr. intros v Hv.
    destruct (natural_spec v (Hnat v Hv)) as [Hv0 Hval].
    apply integer_value_repr; auto.
    assert (amountZ v <= Zsum (map amountZ (obj_values vals)))%Z.
    { apply Zsum_In_le; auto. now apply in_map. }
    lia.
  - apply Zrepr_zero.
  - rewrite Zabs_sum_of_nonneg by assumption. simpl Z.abs. lia.
Qed.

Lemma sumRecord_exact_witness :
  sumRecord (createBlankValues 580 60)%float = JS.of_Z 6960.
Proof.
  change 6960%Z
    with (Zsum (map amountZ (obj_values (createBlankValues 580 60)%float))).
  apply (sumRecord_exact (createBlankValues 580 60)%float).
  - vm_compute. reflexivity.
  - vm_compute. reflexivity.
Defined.

(** ** The exported text *)

Lemma mapM_normal {A B} (f : A -> completion B) (g : A -> B) (l : list A) :
  (forall x, In x l -> f x = Normal (g x)) -> mapM f l = Normal (map g l).
Proof.
  induction l as [|x l IH]; intros H; cbn [mapM map]; auto.
  rewrite (H x) by now left. cbn [bind].
  rewrite IH by (intros y Hy; apply H; now right). reflexivity.
Qed.

Lemma mapM_throw {A B} (f : A -> completion B) (e : error) (l : list A) x :
  (forall y, In y l -> forall e', f y = Throw e' -> e' = e) ->
  In x l -> f x = Throw e -> mapM f l = Throw e.
Proof.
  induction l as [|y l IH]; intros Hall Hin Hx; [contradiction|].
  cbn [mapM]. destruct (f y) as [b|e'] eqn:Ey; cbn [bind].
  - destruct Hin as [->|Hin]; [congruence|].
    rewrite IH; auto. intros z Hz. apply Hall. now right.
  - f_equal. apply (Hall y); auto. now left.
Qed.

Lemma obj_get_In_keys {V} k (o : object V) :
  In k (obj_keys o) -> exists v, obj_get k o = Some v.
Proof.
  induction o as [|[k' v'] o IH]; simpl; [contradiction|].
  intros Hin. destruct (String.eqb k k') eqn:E; eauto.
  apply IH. destruct Hin as [->|Hin]; auto.
  rewrite String.eqb_refl in E. discriminate E.
Qed.

Section ExportFacts.
Variable toString : number -> string.

Lemma csv_cell_present row m :
  has_month_keys (values row) ->
  csv_cell toString row m = Normal (toString (value_or_zero (values row) m)).
Proof.
  intros H. unfold csv_cell, value_or_zero.
  destruct (obj_get_In_keys (month_name m) (values row)) as [v ->]; auto.
  now apply has_month_keys_in.
Qed.

Lemma csv_fields_present row :
  has_month_keys (values row) ->
  csv_fields toString row = Normal (csv_fields_of toString row).
Proof.
  intros H. unfold csv_fields, csv_fields_of.
  rewrite (mapM_normal (csv_cell toString row)
             (fun m => toString (value_or_zero (values row) m))).
  - reflexivity.
  - intros m _. now apply csv_cell_present.
Qed.

Lemma csv_line_throws row e :
  csv_line toString row = Throw e -> e = undefined_read.
Proof.
  unfold csv_line, csv_fields.
  destruct (mapM (csv_cell toString row) MONTHS) as [monthly|e'] eqn:E; cbn [bind];
    [discriminate|].
  intros H. injection H as <-.
  revert E. generalize MONTHS. intros l. induction l as [|m l IH]; cbn [mapM].
  - discriminate.
  - unfold csv_cell at 1.
    destruct (obj_get (month_name m) (values row)); cbn [bind].
    + destruct (mapM (csv_cell toString row) l); cbn [bind]; [discriminate|].
      intros H. apply IH. exact H.
    + intros H. now injection H as <-.
Qed.

Lemma csv_line_missing row m :
  obj_get (month_name m) (values row) = None ->
  csv_line toString row = Throw undefined_read.
Proof.
  intros H. unfold csv_line, csv_fields.
  rewrite (mapM_throw (csv_cell toString row) undefined_read MONTHS m).
  - reflexivity.
  - intros m' _ e'. unfold csv_cell.
    destruct (obj_get (month_name m') (values row)); [discriminate|].
    intros E. now injection E as <-.
  - destruct m; simpl; tauto.
  - unfold csv_cell. now rewrite H.
Qed.

End ExportFacts.

(** X14.  For a sheet whose rows carry the twelve month keys,
    [downloadCsv] writes the header line and then one line per row, in row
    order; a row's line is its label, its twelve amounts in month order and
    its annual total, joined by commas. *)
Theorem downloadCsv_text :
  forall toString rows,
    Forall (fun row => has_month_keys (values row)) rows ->
    downloadCsv toString rows
    = Normal
        (String.append csv_header
           (String.append newline
              (join newline
                 (map (fun row => join "," (csv_fields_of toString row)) rows)))).
Proof.
  intros toString rows H. unfold downloadCsv.
  rewrite (mapM_normal (csv_line toString)
             (fun row => join "," (csv_fields_of toString row))).
  - reflexivity.
  - intros row Hin. rewrite Forall_forall in H.
    unfold csv_line. now rewrite csv_fields_present by auto.
Qed.

Lemma downloadCsv_text_witness :
  exists text, downloadCsv (fun _ => "0") (cloneRows defaultRows) = Normal text.
Proof.
  eexists.
  apply (downloadCsv_text (fun _ => "0") (cloneRows defaultRows)).
  repeat constructor.
Defined.

(** X15.  When some row lacks a month key, [downloadCsv] throws a
    [TypeError] and produces no text: the amount it reads is [undefined],
    which has no [toString]. *)
Theorem downloadCsv_missing_month :
  forall toString rows row m,
    In row rows ->
    obj_get (month_name m) (values row) = None ->
    downloadCsv toString rows
    = Throw (TypeError "Cannot read properties of undefined").
Proof.
  intros toString rows row m Hin Hm. unfold downloadCsv.
  rewrite (mapM_throw (csv_line toString) undefined_read rows row); auto.
  - intros y _ e'. apply csv_line_throws.
  - now apply csv_line_missing with (m := m).
Qed.

Lemma downloadCsv_missing_month_witness :
  downloadCsv (fun _ => "0") (rows restored_negative)
  = Throw (TypeError "Cannot read properties of undefined").
Proof.
  apply (downloadCsv_missing_month (fun _ => "0") (rows restored_negative)
           (mkRow "rent" "Rent" expense [("Jan", (-5)%float)]) Feb).
  - now left.
  - reflexivity.
Defined.

(** ** Reading a line back *)

Lemma split_on_clean c f : has_char c f = false -> split_on c f = [f].
Proof.
  induction f as [|a f IH]; cbn [has_char split_on]; auto.
  intros H. apply orb_false_iff in H as [Ha Hf]. rewrite Ha, IH; auto.
Qed.

Lemma split_on_field c f rest :
  has_char c f = false ->
  split_on c (String.append f (String c rest)) = f :: split_on c rest.
Proof.
  induction f as [|a f IH]; cbn [has_char split_on String.append]; intros H.
  - now rewrite Ascii.eqb_refl.
  - apply orb_false_iff in H as [Ha Hf]. rewrite Ha, IH; auto.
Qed.

Lemma split_on_join c fields :
  fields <> [] ->
  Forall (fun f => has_char c f = false) fields ->
  split_on c (join (String c EmptyString) fields) = fields.
Proof.
  intros Hne H. induction H as [|f fields Hf Hrest IH]; [contradiction|].
  unfold join in *. cbn [String.concat].
  destruct fields as [|g fields].
  - now apply split_on_clean.
  - cbn [String.append]. rewrite split_on_field by assumption.
    f_equal. apply IH. discriminate.
Qed.

Lemma split_on_length c s : List.length (split_on c s) = S (count_char c s).
Proof.
  induction s as [|a s IH]; cbn [split_on count_char]; auto.
  destruct (Ascii.eqb a c); cbn [List.length Nat.add].
  - now rewrite IH.
  - destruct (split_on c s); cbn [List.length] in *; [discriminate IH|exact IH].
Qed.

Lemma count_char_app c s1 s2 :
  count_char c (String.append s1 s2) = count_char c s1 + count_char c s2.
Proof.
  induction s1 as [|a s1 IH]; cbn [count_char String.append]; auto.
  rewrite IH. apply Nat.add_assoc.
Qed.

Lemma count_char_clean c s : has_char c s = false -> count_char c s = 0.
Proof.
  induction s as [|a s IH]; cbn [has_char count_char]; auto.
  intros H. apply orb_false_iff in H as [Ha Hs]. rewrite Ha, IH; auto.
Qed.

Lemma count_char_join c f fields :
  Forall (fun g => has_char c g = false) fields ->
  count_char c (join (String c EmptyString) (f :: fields))
  = count_char c f + List.length fields.
Proof.
  intros H. revert f. induction H as [|g fields Hg Hrest IH]; intros f.
  - unfold join. cbn [String.concat List.length]. lia.
  - unfold join in *. cbn [String.concat] in *.
    rewrite count_char_app. cbn [String.append count_char].
    rewrite Ascii.eqb_refl. rewrite IH, (count_char_clean c g) by assumption.
    cbn [List.length]. lia.
Qed.

(** X16.  A data line of the export is not escaped.  When the amounts are
    written without commas, splitting the line at the commas gives fourteen
    fields plus one for every comma in the label; with a label free of
    commas the fields are the label, the twelve amounts and the total. *)
Theorem csv_line_fields :
  forall toString row,
    (forall v, has_char comma (toString v) = false) ->
    has_month_keys (values row) ->
    exists line,
      csv_line toString row = Normal line
      /\ List.length (split_on comma line) = 14 + count_char comma (label row)
      /\ (has_char comma (label row) = false ->
          split_on comma line = csv_fields_of toString row).
Proof.
  intros toString row Hts Hk. exists (join "," (csv_fields_of toString row)).
  unfold csv_line. rewrite csv_fields_present by assumption. cbn [bind].
  split; [reflexivity|].
  change "," with (String comma EmptyString).
  assert (Hrest : Forall (fun f => has_char comma f = false)
                    (map (fun m => toString (value_or_zero (values row) m)) MONTHS
                     ++ [toString (sumRecord (values row))])).
  { apply Forall_app. split.
    - rewrite Forall_map, Forall_forall. intros m _. apply Hts.
    - constructor; [apply Hts|constructor]. }
  split.
  - rewrite split_on_length. unfold csv_fields_of.
    rewrite count_char_join by assumption.
    rewrite length_app, length_map. cbn [List.length MONTHS]. lia.
  - intros Hl. apply split_on_join; [discriminate|].
    unfold csv_fields_of. constructor; assumption.
Qed.

Lemma csv_line_fields_witness :
  exists line,
    csv_line (fun _ => "0") (mkRow "pets" "Pets, vet" expense createZeroValues) = Normal line
    /\ List.length (split_on comma line) = 15.
Proof.
  destruct (csv_line_fields (fun _ => "0")
              (mkRow "pets" "Pets, vet" expense createZeroValues))
    as (line & Hline & Hlen & _).
  - intros v. reflexivity.
  - unfold has_month_keys. apply Permutation_refl.
  - exists line. split; [exact Hline|exact Hlen].
Defined.

(** ** Saving and restoring *)

Lemma type_of_type_name t : type_of_name (type_name t) = Some t.
Proof. now destruct t. Qed.

Lemma numbers_of_numbers (vals : object number) :
  numbers_of (map (fun kv => (fst kv, JNumber (snd kv))) vals) = Some vals.
Proof.
  induction vals as [|[k v] vals IH]; cbn [map numbers_of fst snd]; auto.
  now rewrite IH.
Qed.

Lemma row_of_json_fields i l tn vs :
  row_of_json
    (JObject [("id", JString i); ("label", JString l); ("type", JString tn);
              ("values", JObject vs)])
  = match type_of_name tn, numbers_of vs with
    | Some ty, Some o => Some (mkRow i l ty o)
    | _, _ => None
    end.
Proof. reflexivity. Qed.

Lemma row_of_json_of_row row : row_of_json (json_of_row row) = Some row.
Proof.
  unfold json_of_row.
  rewrite row_of_json_fields, type_of_type_name, numbers_of_numbers.
  now destruct row.
Qed.

Lemma rows_of_json_of_rows rows :
  rows_of_json (map json_of_row rows) = Some rows.
Proof.
  induction rows as [|row rows IH]; cbn [map rows_of_json]; auto.
  now rewrite row_of_json_of_row, IH.
Qed.

Lemma clone_json_of_rows rows :
  cloneRows_parsed (Data (JArray (map json_of_row rows)))
  = Normal (map json_of_row rows).
Proof.
  unfold cloneRows_parsed.
  induction rows as [|row rows IH]; cbn [map mapM]; auto.
  rewrite IH. reflexivity.
Qed.

Lemma getItem_saved JSON_stringify app :
  getItem STORAGE_KEY (localStorage (save_effect JSON_stringify app))
  = Some (JSON_stringify (mkPersisted (rows app) (currency app))).
Proof. unfold save_effect, getItem. cbn [localStorage]. apply obj_get_set_eq. Qed.

(** X17.  What the save effect writes, the restore effect reads back: when
    the currency is not the empty string and [JSON.parse] returns the value
    that [JSON.stringify] was given, a restore from the saved storage
    installs the rows and the currency that were saved. *)
Theorem save_then_restore :
  forall JSON_parse JSON_stringify app,
    let payload := mkPersisted (rows app) (currency app) in
    let storage := localStorage (save_effect JSON_stringify app) in
    JSON_stringify payload <> "" ->
    JSON_parse (JSON_stringify payload) = Normal (json_of_persisted payload) ->
    currency app <> "" ->
    exists r,
      restore_effect JSON_parse storage = Normal r
      /\ apply_restore r (initialApp storage)
         = Some (mkApp (rows app) (currency app) storage []).
Proof.
  intros JSON_parse JSON_stringify app payload storage Htext Hparse Hcur.
  exists (Restored (map json_of_row (rows app)) (Data (JString (currency app)))).
  split.
  - rewrite (restore_effect_text JSON_parse storage (JSON_stringify payload));
      [|apply getItem_saved|assumption].
    rewrite Hparse. cbn [bind]. unfold restore_parsed, json_of_persisted.
    cbn [p_rows p_currency get_prop].
    change (obj_get "rows" _) with (Some (JArray (map json_of_row (rows app)))).
    change (obj_get "currency" _) with (Some (JString (currency app))).
    cbn [bind truthy_value].
    destruct (String.eqb (currency app) "") eqn:E;
      [apply String.eqb_eq in E; contradiction|].
    cbn [negb]. rewrite clone_json_of_rows. reflexivity.
  - cbn [apply_restore]. rewrite rows_of_json_of_rows. reflexivity.
Qed.

Lemma save_then_restore_witness :
  exists r,
    restore_effect (parse_as (json_of_persisted (mkPersisted tied_rows "EUR")))
      (localStorage (save_effect (stringify_as "{}") (mkApp tied_rows "EUR" [] [])))
    = Normal r
    /\ apply_restore r
         (initialApp (localStorage (save_effect (stringify_as "{}")
                                      (mkApp tied_rows "EUR" [] []))))
       = Some (mkApp tied_rows "EUR" [(STORAGE_KEY, "{}")] []).
Proof.
  apply (save_then_restore (parse_as (json_of_persisted (mkPersisted tied_rows "EUR")))
           (stringify_as "{}") (mkApp tied_rows "EUR" [] [])).
  - discriminate.
  - reflexivity.
  - discriminate.
Defined.

(** X18.  A stored object whose [rows] or [currency] is there but falsy
    ([null], [false], [0], the empty string) is ignored without a warning,
    whatever the other field holds: a sheet saved with the empty string as
    currency is not restored. *)
Theorem restore_ignores_falsy_fields :
  forall JSON_parse storage raw props,
    getItem STORAGE_KEY storage = Some raw ->
    raw <> "" ->
    JSON_parse raw = Normal (JObject props) ->
    (exists rows_j,
       obj_get "rows" props = Some rows_j /\ truthy_value (Data rows_j) = false)
    \/ (exists cur_j,
          obj_get "currency" props = Some cur_j /\ truthy_value (Data cur_j) = false) ->
    restore_effect JSON_parse storage = Normal Untouched.
Proof.
  intros JSON_parse storage raw props G Hraw P H.
  rewrite (restore_effect_text _ _ _ G Hraw), P. cbn [bind].
  unfold restore_parsed. cbn [get_prop bind].
  destruct H as [(rows_j & R & T)|(cur_j & C & T)].
  - rewrite R, T. reflexivity.
  - destruct (obj_get "rows" props) as [rows_j|]; [|reflexivity].
    destruct (truthy_value (Data rows_j)); [|reflexivity].
    rewrite C. cbn [bind]. now rewrite T.
Qed.

Lemma restore_ignores_falsy_fields_witness :
  restore_effect
    (parse_as (json_of_persisted (mkPersisted tied_rows "")))
    [(STORAGE_KEY, "{}")]
  = Normal Untouched.
Proof.
  apply (restore_ignores_falsy_fields
           (parse_as (json_of_persisted (mkPersisted tied_rows "")))
           [(STORAGE_KEY, "{}")] "{}"
           [("rows", JArray (map json_of_row tied_rows)); ("currency", JString "")]).
  - reflexivity.
  - discriminate.
  - reflexivity.
  - right. exists (JString ""). split; reflexivity.
Defined.

Lemma clone_null_throws items :
  In JNull items -> exists e, cloneRows_parsed (Data (JArray items)) = Throw e.
Proof.
  unfold cloneRows_parsed.
  induction items as [|item items IH]; intros Hin; [contradiction|].
  cbn [mapM].
  destruct (get_prop item "values") as [vals|e] eqn:E; cbn [bind];
    [|eexists; reflexivity].
  destruct Hin as [->|Hin]; [discriminate E|].
  destruct (IH Hin) as [e ->]. cbn [bind]. eexists; reflexivity.
Qed.

(** X19.  A stored object with a truthy [currency] and with [rows] that is
    truthy but cannot be cloned, because it is not an array or because the
    array holds [null], restores nothing: the effect logs its warning and
    the rows and the currency stay as they are. *)
Theorem restore_warns_on_bad_rows :
  forall JSON_parse storage raw props rows_j cur_j app,
    getItem STORAGE_KEY storage = Some raw ->
    raw <> "" ->
    JSON_parse raw = Normal (JObject props) ->
    obj_get "rows" props = Some rows_j ->
    obj_get "currency" props = Some cur_j ->
    truthy_value (Data rows_j) = true ->
    truthy_value (Data cur_j) = true ->
    match rows_j with
    | JArray items => In JNull items
    | _ => True
    end ->
    restore_effect JSON_parse storage
    = Normal (Warned "Unable to restore saved finance sheet state")
    /\ apply_restore (Warned "Unable to restore saved finance sheet state") app
       = Some (mkApp (rows app) (currency app) (localStorage app)
                 ("Unable to restore saved finance sheet state" :: console app)).
Proof.
  intros JSON_parse storage raw props rows_j cur_j app G Hraw P R C Tr Tc Hbad.
  split; [|reflexivity].
  rewrite (restore_effect_text _ _ _ G Hraw), P. cbn [bind].
  unfold restore_parsed. cbn [get_prop bind]. rewrite R, Tr, C. cbn [bind]. rewrite Tc.
  destruct rows_j as [|b|n|s|items|ps]; try reflexivity.
  destruct (clone_null_throws items Hbad) as [e ->]. reflexivity.
Qed.

Lemma restore_warns_on_bad_rows_witness :
  restore_effect
    (parse_as (JObject [("rows", JObject []); ("currency", JString "USD")]))
    [(STORAGE_KEY, "{}")]
  = Normal (Warned "Unable to restore saved finance sheet state").
Proof.
  apply (restore_warns_on_bad_rows
           (parse_as (JObject [("rows", JObject []); ("currency", JString "USD")]))
           [(STORAGE_KEY, "{}")] "{}"
           [("rows", JObject []); ("currency", JString "USD")]
           (JObject []) (JString "USD") (initialApp [])).
  - reflexivity.
  - discriminate.
  - reflexivity.
  - reflexivity.
  - reflexivity.
  - reflexivity.
  - reflexivity.
  - exact I.
Defined.

(** X20.  The component touches one storage key.  The save effect writes
    the serialised state under [STORAGE_KEY] and a confirmed [reset]
    removes that key; under every other key the storage reads as before;
    [handleChange], [addRow], [removeRow] and [setCurrency] leave the
    storage as it is. *)
Theorem storage_frame :
  forall parseFloat trim JSON_stringify app,
    getItem STORAGE_KEY (localStorage (save_effect JSON_stringify app))
    = Some (JSON_stringify (mkPersisted (rows app) (currency app)))
    /\ getItem STORAGE_KEY (localStorage (reset true app)) = None
    /\ (forall key,
          key <> STORAGE_KEY ->
          getItem key (localStorage (save_effect JSON_stringify app))
          = getItem key (localStorage app)
          /\ forall confirmed,
               getItem key (localStorage (reset confirmed app))
               = getItem key (localStorage app))
    /\ (forall rowId month value,
          localStorage (handleChange parseFloat rowId month value app) = localStorage app)
    /\ (forall t prompted fresh,
          localStorage (addRow trim t prompted fresh app) = localStorage app)
    /\ (forall rowId, localStorage (removeRow rowId app) = localStorage app)
    /\ (forall code, localStorage (setCurrency code app) = localStorage app).
Proof.
  intros parseFloat trim JSON_stringify app.
  split; [apply getItem_saved|].
  split; [apply obj_get_delete|].
  split.
  { intros key Hk. split.
    - unfold save_effect, getItem. cbn [localStorage]. now apply obj_get_set_neq.
    - intros [|]; cbn [reset negb localStorage]; auto.
      unfold getItem. now apply obj_get_delete_neq. }
  repeat split.
  intros t [[|c lbl]|] fresh; reflexivity.
Qed.

Lemma storage_frame_witness :
  getItem "theme" (localStorage (reset true (mkApp tied_rows "USD"
                                               [("theme", "dark"); (STORAGE_KEY, "{}")] [])))
  = Some "dark".
Proof.
  destruct (storage_frame (fun _ => 0%float) (fun s => s) (stringify_as "{}")
              (mkApp tied_rows "USD" [("theme", "dark"); (STORAGE_KEY, "{}")] []))
    as (_ & _ & Hother & _).
  destruct (Hother "theme") as [_ Hreset].
  - discriminate.
  - exact (Hreset true).
Defined.

(** ** The template amounts *)

Lemma max_zero_l y :
  JS.max 0%float y = 0%float
  \/ (0 <? JS.max 0%float y)%float = true
  \/ PrimFloat.is_nan (JS.max 0%float y) = true.
Proof.
  unfold JS.max. change (PrimFloat.is_nan 0%float) with false. cbn [orb].
  destruct (PrimFloat.is_nan y); [right; right; reflexivity|].
  destruct (0 <? y)%float eqn:E; [right; left; exact E|].
  destruct (y <? 0)%float; [left; reflexivity|].
  left. reflexivity.
Qed.

(** X21.  Whatever base and variation it is given, [createBlankValues]
    returns the twelve months in calendar order, and no amount in it is
    negative: each is [+0], above zero, or [NaN]. *)
Theorem createBlankValues_amounts :
  forall base variation,
    obj_keys (createBlankValues base variation) = month_names
    /\ Forall (fun v => v = 0%float \/ (0 <? v)%float = true \/ PrimFloat.is_nan v = true)
         (obj_values (createBlankValues base variation)).
Proof.
  intros base variation. split; [reflexivity|].
  assert (E : obj_values (createBlankValues base variation)
              = map (fun i => JS.max 0%float (JS.round (base + drift i variation)%float))
                  (seq 0 12)) by reflexivity.
  rewrite E, Forall_map, Forall_forall. intros i _. apply max_zero_l.
Qed.

(** ** What a cell shows after an edit *)

Section CellFacts.
Variable parseFloat : string -> number.

Lemma eqb_zero_not_lt x : (x =? 0)%float = true -> (x <? 0)%float = false.
Proof.
  rewrite FloatAxioms.eqb_spec, FloatAxioms.ltb_spec. unfold SFeqb, SFltb.
  destruct (SFcompare (Prim2SF x) (Prim2SF 0)) as [[| |]|]; auto; discriminate.
Qed.

Lemma pos_facts x :
  (0 <? x)%float = true ->
  (x <? 0)%float = false /\ (x =? 0)%float = false /\ JS.is_neg_zero x = false.
Proof.
  unfold JS.is_neg_zero.
  rewrite FloatAxioms.eqb_spec, !FloatAxioms.ltb_spec, Prim2SF_zero.
  unfold SFeqb, SFltb.
  destruct (Prim2SF x) as [s|s| |s m e]; cbn [SFcompare]; try discriminate;
    destruct s; try discriminate; auto.
Qed.

Lemma amount_of_blank value :
  JS.isFinite (parseFloat value) = false
  \/ (parseFloat value <? 0)%float = true
  \/ (parseFloat value =? 0)%float = true ->
  (amount_of parseFloat value =? 0)%float = true.
Proof.
  unfold amount_of. intros H.
  destruct (JS.isFinite (parseFloat value)) eqn:Hf; [|reflexivity].
  destruct H as [H|[H|H]]; [discriminate H| |].
  - now rewrite max_zero_negative.
  - rewrite max_zero_other by auto using eqb_zero_not_lt.
    destruct (JS.is_neg_zero (parseFloat value)); [reflexivity|exact H].
Qed.

Lemma amount_of_positive value :
  JS.isFinite (parseFloat value) = true ->
  (0 <? parseFloat value)%float = true ->
  amount_of parseFloat value = parseFloat value.
Proof.
  intros Hf Hp. unfold amount_of. rewrite Hf.
  destruct (pos_facts _ Hp) as (Hlt & _ & Hz).
  rewrite max_zero_other by assumption. now rewrite Hz.
Qed.

End CellFacts.

(** X22.  After [handleChange], the edited cell of every row with the
    targeted id is blank when the typed text does not parse to a finite
    number, or parses to a negative number or to zero, and shows the parsed
    number when that is finite and above zero. *)
Theorem cell_after_edit :
  forall parseFloat rowId month value app row',
    In row' (rows (handleChange parseFloat rowId month value app)) ->
    id row' = rowId ->
    let parsed := parseFloat value in
    (JS.isFinite parsed = false \/ (parsed <? 0)%float = true \/ (parsed =? 0)%float = true ->
     cell_value row' month = CellBlank)
    /\ (JS.isFinite parsed = true -> (0 <? parsed)%float = true ->
        cell_value row' month = CellNumber parsed).
Proof.
  intros parseFloat rowId month value app row' Hin Hid parsed. subst parsed.
  rewrite handleChange_rows in Hin. apply in_map_iff in Hin as (row & <- & _).
  rewrite edited_id in Hid. unfold cell_value. rewrite edited_target by assumption.
  split.
  - intros H. now rewrite amount_of_blank.
  - intros Hf Hp. rewrite amount_of_positive by assumption.
    destruct (pos_facts _ Hp) as (_ & -> & _). reflexivity.
Qed.

Lemma cell_after_edit_witness :
  cell_value
    (mkRow "rent" "Rent" expense
       (obj_set "Jan" 0%float (months_with 700 500)%float)) Jan
  = CellBlank.
Proof.
  apply (cell_after_edit (fun _ => (-5)%float) "rent" Jan "-5"
           (mkApp tied_rows "USD" [] [])
           (mkRow "rent" "Rent" expense
              (obj_set "Jan" 0%float (months_with 700 500)%float))).
  - right. left. reflexivity.
  - reflexivity.
  - right. left. reflexivity.
Defined.

(** ** The largest expense, whatever the amounts *)

Section SortPermutation.
Context {A : Type} (comparefn : A -> A -> number).

Lemma sort_insert_perm x l : Permutation (sort_insert comparefn x l) (x :: l).
Proof.
  induction l as [|y l IH]; simpl; auto.
  destruct (0 <? comparefn x y)%float; auto.
  apply perm_trans with (y :: x :: l); [now constructor|apply perm_swap].
Qed.

Lemma sort_perm l : Permutation (sort comparefn l) l.
Proof.
  induction l as [|x l IH]; simpl; auto.
  apply perm_trans with (x :: sort comparefn l); [apply sort_insert_perm|now constructor].
Qed.

End SortPermutation.

(** X23.  Whatever the amounts, [NaN] included, [highestExpense] is
    undefined exactly when the sheet has no expense row, and otherwise it is
    the label and annual total of one of the expense rows; rows of the other
    types never appear in it. *)
Theorem highestExpense_is_expense_row :
  forall rows,
    (highestExpense rows = None <-> expenseRows rows = [])
    /\ (forall best,
          highestExpense rows = Some best ->
          exists row,
            In row rows /\ type row = expense
            /\ best = mkExpenseTotal (label row) (sumRecord (values row))).
Proof.
  intros rows. unfold highestExpense. split.
  - split.
    + intros H.
      destruct (sort by_total (expenseTotals rows)) as [|e l] eqn:E; [|discriminate H].
      apply sort_nil_inv in E. unfold expenseTotals in E. now apply map_eq_nil in E.
    + intros H. unfold expenseTotals. now rewrite H.
  - intros best H.
    assert (Hin : In best (expenseTotals rows)).
    { apply Permutation_in with (l := sort by_total (expenseTotals rows));
        [apply sort_perm|].
      destruct (sort by_total (expenseTotals rows)) as [|e l]; [discriminate H|].
      injection H as ->. now left. }
    unfold expenseTotals in Hin. apply in_map_iff in Hin as (row & <- & Hrow).
    apply expenseRows_In in Hrow as [Hr Ht]. exists row. auto.
Qed.

Lemma highestExpense_is_expense_row_witness :
  highestExpense (cloneRows defaultRows) <> None.
Proof.
  destruct (highestExpense_is_expense_row (cloneRows defaultRows)) as [[Hnone _] _].
  intros H. apply Hnone in H. discriminate H.
Defined.

(** ** Edits and totals *)

Lemma filter_map_same {A} (p : A -> bool) (f : A -> A) (l : list A) :
  (forall x, p (f x) = p x) -> filter p (map f l) = map f (filter p l).
Proof.
  intros H. induction l as [|x l IH]; cbn [map filter]; auto.
  rewrite H. destruct (p x); cbn [map]; now rewrite IH.
Qed.

Lemma totalFor_edited parseFloat rowId month value m rows t :
  (forall row, In row rows -> type row = t -> id row = rowId -> m <> month) ->
  totalFor m (map (edited parseFloat rowId month value) rows) t = totalFor m rows t.
Proof.
  intros H. unfold totalFor.
  rewrite filter_map_same by (intros row; now rewrite edited_type).
  rewrite !(fold_left_map (fun a b => (a + b)%float)
              (fun row => value_or_zero (values row) m)).
  rewrite map_map. f_equal. apply map_ext_in. intros row Hin.
  apply filter_In in Hin as [Hin Ht].
  destruct (String.eqb (id row) rowId) eqn:E.
  - apply String.eqb_eq in E. unfold value_or_zero.
    rewrite edited_other_key; auto.
    intros Hm. apply month_name_inj in Hm.
    apply (H row); auto. destruct (type row), t; auto; discriminate.
  - rewrite edited_other_row; auto. intros Hid. subst rowId.
    rewrite String.eqb_refl in E. discriminate E.
Qed.

(** X24.  An edit reaches only the totals of its own month and category:
    after [handleChange] the totals of every other month are as before, and
    so are, in every month, the totals of a category that no row with the
    targeted id belongs to. *)
Theorem handleChange_totals_frame :
  forall parseFloat rowId month value app,
    let app' := handleChange parseFloat rowId month value app in
    (forall m t, m <> month -> totalFor m (rows app') t = totalFor m (rows app) t)
    /\ (forall m t,
          (forall row, In row (rows app) -> id row = rowId -> type row <> t) ->
          totalFor m (rows app') t = totalFor m (rows app) t).
Proof.
  intros parseFloat rowId month value app app'. subst app'.
  rewrite handleChange_rows. split.
  - intros m t Hm. apply totalFor_edited. auto.
  - intros m t H. apply totalFor_edited. intros row Hin Ht Hid.
    exfalso. now apply (H row).
Qed.

Lemma handleChange_totals_frame_witness :
  totalFor Feb (rows (handleChange (fun _ => 40%float) "rent" Jan "40" (initialApp [])))
    expense
  = totalFor Feb (rows (initialApp [])) expense.
Proof.
  destruct (handleChange_totals_frame (fun _ => 40%float) "rent" Jan "40" (initialApp []))
    as [Hmonth _].
  apply Hmonth. discriminate.
Defined.
